(** * The Wrangler version-deploy action, embedded in Rocq

    A shallow embedding of [src/index.ts] (the upload-then-deploy flow) and of
    [src/metadata.ts], with the properties of its template renderer, argument
    tokenizer, output extractor, metadata collector and orchestrator. *)

From Stdlib Require Import ZArith NArith List String Ascii Bool Lia.
From Stdlib Require Import DecimalString.
From stdpp Require Import base option list gmap.
Import ListNotations.

Local Open Scope N_scope.
Local Open Scope list_scope.

(** ** JavaScript strings

    A JavaScript string is a sequence of UTF-16 code units; [length],
    [slice], [substring], indexing and the regular expressions of the source
    (none has the [u] flag) all work on code units. *)

Abbreviation jsstring := (list N).

(** A literal of the source, written in ASCII. *)
Definition u (s : string) : jsstring :=
  map N_of_ascii (list_ascii_of_string s).
Arguments u s%_string.

Definition DQUOTE : N := 34.
Definition SQUOTE : N := 39.
Definition LF : N := 10.

(** JS truthiness of a string: non-empty. *)
Definition truthy (s : jsstring) : bool :=
  match s with [] => false | _ :: _ => true end.

(** [\s] of an ECMAScript regular expression, which is also the set that
    [String.prototype.trim] strips: WhiteSpace and LineTerminator. *)
Definition is_space (c : N) : bool :=
  (c =? 9) || (c =? 10) || (c =? 11) || (c =? 12) || (c =? 13) || (c =? 32)
  || (c =? 160) || (c =? 5760) || ((8192 <=? c) && (c <=? 8202))
  || (c =? 8232) || (c =? 8233) || (c =? 8239) || (c =? 8287)
  || (c =? 12288) || (c =? 65279).

Fixpoint trimStart (s : jsstring) : jsstring :=
  match s with
  | [] => []
  | c :: s' => if is_space c then trimStart s' else s
  end.

Definition trimEnd (s : jsstring) : jsstring := rev (trimStart (rev s)).

Definition trim (s : jsstring) : jsstring := trimEnd (trimStart s).

(** ** Argument tokenizer: [splitArgs] *)

Module Tokenizer.

(** The three variables of the loop of [splitArgs]. *)
Record loop_state := LoopState {
  args : list jsstring;
  current : jsstring;
  quote : option N
}.

Definition loop_init : loop_state :=
  {| args := []; current := []; quote := None |}.

(** One iteration of [for (let i = 0; i < raw.length; i++)] on [ch = raw[i]]. *)
Definition loop_body (st : loop_state) (ch : N) : loop_state :=
  match quote st with
  | Some q =>
      if ch =? q
      then {| args := args st; current := current st; quote := None |}
      else {| args := args st; current := current st ++ [ch]; quote := Some q |}
  | None =>
      if (ch =? SQUOTE) || (ch =? DQUOTE)
      then {| args := args st; current := current st; quote := Some ch |}
      else if is_space ch
      then (if truthy (current st)
            then {| args := args st ++ [current st]; current := []; quote := None |}
            else st)
      else {| args := args st; current := current st ++ [ch]; quote := None |}
  end.

(** The statements after the loop: a pending token is pushed. *)
Definition loop_exit (st : loop_state) : list jsstring :=
  if truthy (current st) then args st ++ [current st] else args st.

Definition splitArgs (raw : jsstring) : list jsstring :=
  if negb (truthy (trim raw)) then []
  else loop_exit (fold_left loop_body raw loop_init).

End Tokenizer.

(** ** Regular expressions of the source

    The three regular expressions of the source are sequences of literals and
    of greedy quantifiers on character classes, each class disjoint from what
    may follow it, so a match attempt at a position never backtracks: every
    quantifier takes the longest run of its class. *)

Module Regex.

(** [span p s]: the longest prefix of [s] in the class [p], and the rest. *)
Fixpoint span (p : N -> bool) (s : jsstring) : jsstring * jsstring :=
  match s with
  | [] => ([], [])
  | c :: s' =>
      if p c then (let (run, rest) := span p s' in (c :: run, rest))
      else ([], s)
  end.

(** [strip_prefix lit s]: [s] without its prefix [lit], when it has it. *)
Fixpoint strip_prefix (lit s : jsstring) : option jsstring :=
  match lit, s with
  | [], _ => Some s
  | a :: lit', b :: s' => if a =? b then strip_prefix lit' s' else None
  | _ :: _, [] => None
  end.

(** [[a-zA-Z0-9_]] *)
Definition is_word (c : N) : bool :=
  ((97 <=? c) && (c <=? 122)) || ((65 <=? c) && (c <=? 90))
  || ((48 <=? c) && (c <=? 57)) || (c =? 95).

(** [[0-9a-fA-F-]] *)
Definition is_hex_or_hyphen (c : N) : bool :=
  ((48 <=? c) && (c <=? 57)) || ((97 <=? c) && (c <=? 102))
  || ((65 <=? c) && (c <=? 70)) || (c =? 45).

(** Any code unit that is neither [\s] nor a double quote: the class of the
    URL expression. *)
Definition is_url_char (c : N) : bool :=
  negb (is_space c || (c =? DQUOTE)).

End Regex.
Import Regex.

(** ** Template renderer: [renderTemplate] *)

Module Renderer.

Definition LBRACE : N := 123.
Definition RBRACE : N := 125.

(** One attempt of [/{{\s*([a-zA-Z0-9_]+)\s*}}/] at the start of [s]: the
    captured key and the text after the match. *)
Definition match_placeholder (s : jsstring) : option (jsstring * jsstring) :=
  match strip_prefix [LBRACE; LBRACE] s with
  | Some s1 =>
      let (_, s2) := span is_space s1 in
      let (key, s3) := span is_word s2 in
      if truthy key then
        let (_, s4) := span is_space s3 in
        match strip_prefix [RBRACE; RBRACE] s4 with
        | Some rest => Some (key, rest)
        | None => None
        end
      else None
  | None => None
  end.

(** [s.replace(re, fn)] for the global placeholder expression: matches are
    looked for from left to right, each search resuming after the previous
    match; text outside the matches is copied. A match has at least five code
    units, so [fuel = length s] is never exhausted. *)
Fixpoint replace_placeholders (fuel : nat) (fn : jsstring -> jsstring)
    (s : jsstring) : jsstring :=
  match fuel with
  | O => s
  | S fuel' =>
      match s with
      | [] => []
      | c :: s' =>
          match match_placeholder s with
          | Some (key, rest) => fn key ++ replace_placeholders fuel' fn rest
          | None => c :: replace_placeholders fuel' fn s'
          end
      end
  end.

(** [TemplateContext = Record<string, string | undefined>]: the own
    properties of the context object; a key may be absent, or present with
    the value [undefined]. The contexts of the program are object literals,
    so what they do not have themselves they inherit from
    [Object.prototype]. *)
Abbreviation TemplateContext := (gmap (list N) (option (list N))).

(** [String(f)] for a built-in function, as the runtime of the action
    prints it. *)
Definition native_function (name : string) : jsstring :=
  u "function " ++ u name ++ u "() { [native code] }".

(** [String(value)] for each property of [Object.prototype]: its methods
    and, under [__proto__], the prototype itself. *)
Definition object_prototype : gmap (list N) (list N) :=
  list_to_map [
    (u "constructor", native_function "Object");
    (u "__defineGetter__", native_function "__defineGetter__");
    (u "__defineSetter__", native_function "__defineSetter__");
    (u "hasOwnProperty", native_function "hasOwnProperty");
    (u "__lookupGetter__", native_function "__lookupGetter__");
    (u "__lookupSetter__", native_function "__lookupSetter__");
    (u "isPrototypeOf", native_function "isPrototypeOf");
    (u "propertyIsEnumerable", native_function "propertyIsEnumerable");
    (u "toString", native_function "toString");
    (u "valueOf", native_function "valueOf");
    (u "__proto__", u "[object Object]");
    (u "toLocaleString", native_function "toLocaleString")
  ].

(** The callback of [renderTemplate]: [String(context[key])], or the empty
    string when [context[key]] is [undefined]. The property is looked up in
    the context itself and then in its prototype. *)
Definition lookup_value (context : TemplateContext) (key : jsstring) : jsstring :=
  match context !! key with
  | Some (Some value) => value
  | Some None => []
  | None =>
      match object_prototype !! key with
      | Some text => text
      | None => []
      end
  end.

Definition renderTemplate (template : jsstring) (context : TemplateContext)
    : jsstring :=
  replace_placeholders (length template) (lookup_value context) template.

End Renderer.

(** ** Output extractor *)

Module Extractor.

Definition VERSION_LABEL : jsstring := u "Worker Version ID:".

(** One attempt of [/Worker Version ID:\s*([0-9a-fA-F-]+)/] at the start of
    [s]: the captured identifier. *)
Definition match_version_id (s : jsstring) : option jsstring :=
  match strip_prefix VERSION_LABEL s with
  | Some s1 =>
      let (_, s2) := span is_space s1 in
      let (id, _) := span is_hex_or_hyphen s2 in
      if truthy id then Some id else None
  | None => None
  end.

(** [output.match(re)?.[1]]: the leftmost position where the expression
    matches decides. *)
Fixpoint parseVersionIdFromUpload (output : jsstring) : option jsstring :=
  match match_version_id output with
  | Some id => Some id
  | None =>
      match output with
      | [] => None
      | _ :: rest => parseVersionIdFromUpload rest
      end
  end.

(** One attempt of the URL expression (http, an optional s, a colon and two
    slashes, then at least one code unit of [is_url_char]) at the start of
    [s]: the matched text. *)
Definition match_url (s : jsstring) : option jsstring :=
  match strip_prefix (u "http") s with
  | Some s1 =>
      let (scheme, s2) :=
        match s1 with
        | 115 :: r => (u "https", r)
        | _ => (u "http", s1)
        end in
      match strip_prefix (u "://") s2 with
      | Some s3 =>
          let (body, _) := span is_url_char s3 in
          if truthy body then Some (scheme ++ u "://" ++ body) else None
      | None => None
      end
  | None => None
  end.

(** [parseWranglerOutput(output).deploymentUrl] *)
Fixpoint parseWranglerOutput (output : jsstring) : option jsstring :=
  match match_url output with
  | Some url => Some url
  | None =>
      match output with
      | [] => None
      | _ :: rest => parseWranglerOutput rest
      end
  end.

End Extractor.

(** ** More of the JavaScript string library *)

(** [a === b] on strings. *)
Fixpoint str_eqb (a b : jsstring) : bool :=
  match a, b with
  | [], [] => true
  | x :: a', y :: b' => (x =? y) && str_eqb a' b'
  | _, _ => false
  end.

(** [s.split(sep)] for a separator of one code unit. *)
Fixpoint split (sep : N) (s : jsstring) : list jsstring :=
  match s with
  | [] => [[]]
  | c :: s' =>
      if c =? sep then [] :: split sep s'
      else match split sep s' with
           | piece :: pieces => (c :: piece) :: pieces
           | [] => [[c]]
           end
  end.

(** [parts.join(sep)] *)
Fixpoint join (sep : jsstring) (parts : list jsstring) : jsstring :=
  match parts with
  | [] => []
  | [p] => p
  | p :: ps => p ++ sep ++ join sep ps
  end.

(** [s.startsWith(lit)] *)
Definition startsWith (lit s : jsstring) : bool :=
  match strip_prefix lit s with Some _ => true | None => false end.

(** [s.replace(pat, rep)] for a string pattern: the first occurrence only. *)
Fixpoint replace_first (pat rep s : jsstring) : jsstring :=
  match strip_prefix pat s with
  | Some rest => rep ++ rest
  | None =>
      match s with
      | [] => []
      | c :: s' => c :: replace_first pat rep s'
      end
  end.

(** [s.toLowerCase()]. Only the ASCII capitals are mapped: the one other
    character of Unicode whose lower case is an ASCII letter is U+212A
    (k), so the single use of the source, a comparison with the
    literal true, is decided as in JavaScript. *)
Definition toLowerCase (s : jsstring) : jsstring :=
  map (fun c => if (65 <=? c) && (c <=? 90) then c + 32 else c) s.

(** The decimal text of an integral number, as a template literal gives it. *)
Definition number_to_string (n : Z) : jsstring :=
  u (NilZero.string_of_int (Z.to_int n)).

(** [a || b] for an optional string [a]: [a] when it is a non-empty string. *)
Definition js_or (a : option jsstring) (b : jsstring) : jsstring :=
  match a with
  | Some (c :: s) => c :: s
  | _ => b
  end.

(** [a ?? b] *)
Definition nullish (a : option jsstring) (b : jsstring) : jsstring :=
  match a with
  | Some s => s
  | None => b
  end.

(** The value of an optional string under a truthiness test: the string when
    it is defined and non-empty. *)
Definition if_truthy (a : option jsstring) : option jsstring :=
  match a with
  | Some (c :: s) => Some (c :: s)
  | _ => None
  end.

(** ** Deploy metadata and the default message *)

Record DeployMetadata := {
  owner : option jsstring;
  repo : option jsstring;
  ref : option jsstring;
  branch : option jsstring;
  sha : option jsstring;
  short_sha : option jsstring;
  actor : option jsstring;
  run_id : option jsstring;
  run_number : option jsstring;
  commit_message : option jsstring;
  short_commit_message : option jsstring
}.

Definition buildDefaultMessage (meta : DeployMetadata) : jsstring :=
  let branch := js_or (branch meta) [] in
  let shortSha :=
    js_or (short_sha meta)
      (match if_truthy (sha meta) with
       | Some sha => take 6 sha
       | None => []
       end) in
  let baseMessage :=
    js_or (short_commit_message meta) (js_or (commit_message meta) []) in
  let prefixParts :=
    if truthy branch then
      (if truthy shortSha then [branch ++ u "@" ++ shortSha] else [branch])
    else if truthy shortSha then [shortSha]
    else [] in
  let prefix := join [] prefixParts in
  let combined :=
    if truthy prefix then prefix ++ u ": " ++ baseMessage else baseMessage in
  take 100 combined.

Definition buildDefaultTag (_meta : DeployMetadata) : jsstring := [].

(** [{ ...metadata, deployment_url: undefined, version_id: undefined }] *)
Definition preTemplateContext (metadata : DeployMetadata)
    : Renderer.TemplateContext :=
  <[u "version_id" := None]>
  (<[u "deployment_url" := None]>
  (<[u "short_commit_message" := short_commit_message metadata]>
  (<[u "commit_message" := commit_message metadata]>
  (<[u "run_number" := run_number metadata]>
  (<[u "run_id" := run_id metadata]>
  (<[u "actor" := actor metadata]>
  (<[u "short_sha" := short_sha metadata]>
  (<[u "sha" := sha metadata]>
  (<[u "branch" := branch metadata]>
  (<[u "ref" := ref metadata]>
  (<[u "owner" := owner metadata]>
  (<[u "repo" := repo metadata]> ∅)))))))))))).

(** ** Effects: inputs, environment, processes, logging and outputs

    The collaborators of the action are the GitHub toolkit ([core.getInput],
    [core.info], [core.error], [core.debug], [core.setFailed],
    [core.setOutput]), the ambient [process.env] and [exec.exec]. A run is a
    function of a [World], which answers what the run reads, and it produces
    the ordered trace of what it does. *)

(** The options passed to [exec.exec], as far as the source sets them. *)
Record ExecOptions := {
  opt_api_token : option jsstring;  (* CLOUDFLARE_API_TOKEN over process.env *)
  opt_cwd : option jsstring;
  opt_silent : bool
}.

(** A piece of output delivered to a listener. *)
Inductive Chunk :=
| Stdout (data : jsstring)
| Stderr (data : jsstring).

(** How the promise of [exec.exec] settles. *)
Inductive ExecOutcome :=
| Exited (code : Z)
| Rejected (message : jsstring).

Record ExecResult := {
  chunks : list Chunk;
  outcome : ExecOutcome
}.

Record World := {
  (* the raw value of an action input, empty when the input is not set *)
  inputs : jsstring -> jsstring;
  (* process.env *)
  env : jsstring -> option jsstring;
  (* what an invoked process prints and how it ends *)
  exec_oracle : jsstring -> list jsstring -> ExecOptions -> ExecResult
}.

Inductive Event :=
| Info (message : jsstring)
| LogError (message : jsstring)
| LogDebug (message : jsstring)
| SetFailed (message : jsstring)
| SetOutput (name value : jsstring)
| Exec (commandLine : jsstring) (args : list jsstring) (options : ExecOptions).

(** A computation: the events it emitted, and its value or the message of
    the error it threw. *)
Definition Act (A : Type) : Type := (list Event * (A + jsstring))%type.

#[global] Instance act_ret : MRet Act := fun A a => ([], inl a).

#[global] Instance act_bind : MBind Act := fun A B k m =>
  match m with
  | (t, inl a) => let (t', r) := k a in (t ++ t', r)
  | (t, inr e) => (t, inr e)
  end.

Definition throw {A : Type} (message : jsstring) : Act A := ([], inr message).

(** [try { body } catch (e) { handler(e.message) }] *)
Definition try_catch {A : Type} (body : Act A) (handler : jsstring -> Act A)
    : Act A :=
  match body with
  | (t, inl a) => (t, inl a)
  | (t, inr e) => let (t', r) := handler e in (t ++ t', r)
  end.

Definition emit (e : Event) : Act unit := ([e], inl tt).

Definition info (message : jsstring) : Act unit := emit (Info message).
Definition setFailed (message : jsstring) : Act unit := emit (SetFailed message).
Definition setOutput (name value : jsstring) : Act unit :=
  emit (SetOutput name value).
Definition debug (message : jsstring) : Act unit := emit (LogDebug message).

(** [core.getInput(name, { required })], by the contract of the toolkit: the
    value of the input, empty when it is not set; an error when it is
    required and empty; the value is returned trimmed. *)
Definition getInput (w : World) (name : jsstring) (required : bool)
    : Act jsstring :=
  let val := inputs w name in
  if required && negb (truthy val)
  then throw (u "Input required and not supplied: " ++ name)
  else mret (trim val).

(** [exec.exec(commandLine, args, options)]: the listeners are called on
    every chunk, then the promise settles. The value carries, next to the
    exit code, the chunks the listeners were given, from which the source
    accumulates its buffers. *)
Definition exec (w : World) (commandLine : jsstring) (args : list jsstring)
    (options : ExecOptions) (listeners : Chunk -> list Event)
    : Act (Z * list Chunk) :=
  let r := exec_oracle w commandLine args options in
  (Exec commandLine args options :: flat_map listeners (chunks r),
   match outcome r with
   | Exited code => inl (code, chunks r)
   | Rejected message => inr message
   end).

(** What the [stdout] listeners accumulate: [buffer += data.toString()]. *)
Definition stdout_text (cs : list Chunk) : jsstring :=
  flat_map (fun c => match c with Stdout data => data | Stderr _ => [] end) cs.

(** The listeners of the upload and deploy invocations: each chunk is
    forwarded to the log. *)
Definition stream_to_log (c : Chunk) : list Event :=
  match c with
  | Stdout data => [Info (trimEnd data)]
  | Stderr data => [LogError (trimEnd data)]
  end.

(** The error a [catch (unknownError)] of the source reports:
    [error.message || String(error)]. *)
Definition error_text (message : jsstring) : jsstring :=
  if truthy message then message else u "Error".

(** ** Metadata collector of [src/index.ts] *)

Definition SLASH : N := 47.

Definition git_options : ExecOptions :=
  {| opt_api_token := None; opt_cwd := None; opt_silent := true |}.

Definition getLastCommitMessage (w : World) : Act (option jsstring) :=
  try_catch
    ('(_, cs) ← exec w (u "git") [u "log"; u "-1"; u "--pretty=%B"]
                  git_options (fun _ => []);
     let trimmed := trim (stdout_text cs) in
     mret (if (0 <? length trimmed)%nat then Some trimmed else None))
    (fun _ => mret None).

Definition collectMetadata (w : World) : Act DeployMetadata :=
  let repoFull := env w (u "GITHUB_REPOSITORY") in
  let '(owner, repoName) :=
    match if_truthy repoFull with
    | Some repoFull =>
        let parts := split SLASH repoFull in (parts !! 0%nat, parts !! 1%nat)
    | None => (None, None)
    end in
  let sha := env w (u "GITHUB_SHA") in
  let short_sha :=
    match if_truthy sha with
    | Some sha => Some (take 7 sha)
    | None => None
    end in
  let ref := env w (u "GITHUB_REF") in
  let branch :=
    match if_truthy ref with
    | Some ref =>
        if startsWith (u "refs/heads/") ref
        then Some (drop (length (u "refs/heads/")) ref)
        else None
    | None => None
    end in
  let actor := env w (u "GITHUB_ACTOR") in
  let run_id := env w (u "GITHUB_RUN_ID") in
  let run_number := env w (u "GITHUB_RUN_NUMBER") in
  commit_message ← getLastCommitMessage w;
  let short_commit_message :=
    match if_truthy commit_message with
    | Some commit_message => split LF commit_message !! 0%nat
    | None => None
    end in
  mret {|
    repo := repoName;
    owner := owner;
    ref := ref;
    branch := branch;
    sha := sha;
    short_sha := short_sha;
    actor := actor;
    run_id := run_id;
    run_number := run_number;
    commit_message := commit_message;
    short_commit_message := short_commit_message
  |}.

(** ** Metadata collector of [src/metadata.ts] *)

Module MetadataTs.

Definition getLastCommitMessage (w : World) : Act (option jsstring) :=
  try_catch
    ('(_, cs) ← exec w (u "git") [u "log"; u "-1"; u "--pretty=%B"]
                  git_options (fun _ => []);
     let trimmed := trim (stdout_text cs) in
     mret (if (0 <? length trimmed)%nat then Some trimmed else None))
    (fun message =>
       debug (u "Unable to read commit message via git log -1 --pretty=%B: "
              ++ message);;
       mret None).

(** The code units that follow the slice in the template literal of
    [truncateForDebug], as the file has them: U+00E2, U+20AC, U+00A6. *)
Definition TRUNCATION_MARK : jsstring := [226; 8364; 166].

Definition truncateForDebug (value : jsstring) (max : nat) : jsstring :=
  if (length value <=? max)%nat then value
  else take max value ++ TRUNCATION_MARK.

Definition debugMetadata (metadata : DeployMetadata) : Act unit :=
  debug (join [LF] [
    u "Collected deploy metadata:";
    u "  owner: " ++ nullish (owner metadata) (u "n/a");
    u "  repo: " ++ nullish (repo metadata) (u "n/a");
    u "  ref: " ++ nullish (ref metadata) (u "n/a");
    u "  branch: " ++ nullish (branch metadata) (u "n/a");
    u "  sha: " ++ nullish (sha metadata) (u "n/a");
    u "  short_sha: " ++ nullish (short_sha metadata) (u "n/a");
    u "  actor: " ++ nullish (actor metadata) (u "n/a");
    u "  run_id: " ++ nullish (run_id metadata) (u "n/a");
    u "  run_number: " ++ nullish (run_number metadata) (u "n/a");
    u "  commit_message: " ++
      match if_truthy (commit_message metadata) with
      | Some m => truncateForDebug m 140
      | None => u "n/a"
      end;
    u "  short_commit_message: " ++
      match if_truthy (short_commit_message metadata) with
      | Some m => truncateForDebug m 140
      | None => u "n/a"
      end
  ]).

Definition collectDeployMetadata (w : World) : Act DeployMetadata :=
  let repoFull := env w (u "GITHUB_REPOSITORY") in
  let '(owner, repo) :=
    match if_truthy repoFull with
    | Some repoFull =>
        let parts := split SLASH repoFull in (parts !! 0%nat, parts !! 1%nat)
    | None => (None, None)
    end in
  let sha := env w (u "GITHUB_SHA") in
  let short_sha :=
    match if_truthy sha with
    | Some sha => Some (take 7 sha)
    | None => None
    end in
  let ref := env w (u "GITHUB_REF") in
  let branch :=
    match if_truthy ref with
    | Some ref =>
        if startsWith (u "refs/heads/") ref
        then Some (replace_first (u "refs/heads/") [] ref)
        else None
    | None => None
    end in
  let actor := env w (u "GITHUB_ACTOR") in
  let run_id := env w (u "GITHUB_RUN_ID") in
  let run_number := env w (u "GITHUB_RUN_NUMBER") in
  commit_message ← getLastCommitMessage w;
  let short_commit_message :=
    match if_truthy commit_message with
    | Some commit_message =>
        match split LF commit_message !! 0%nat with
        | Some line => Some (trim line)
        | None => None
        end
    | None => None
    end in
  let metadata := {|
    owner := owner;
    repo := repo;
    ref := ref;
    branch := branch;
    sha := sha;
    short_sha := short_sha;
    actor := actor;
    run_id := run_id;
    run_number := run_number;
    commit_message := commit_message;
    short_commit_message := short_commit_message
  |} in
  debugMetadata metadata;;
  mret metadata.

End MetadataTs.

(** ** Deployment orchestrator: [run] of [src/index.ts] *)

Definition when (b : bool) (a : Act unit) : Act unit :=
  if b then a else mret tt.

Definition wrangler_options (apiToken : jsstring)
    (workingDirectory : option jsstring) : ExecOptions :=
  {| opt_api_token := Some apiToken;
     opt_cwd := workingDirectory;
     opt_silent := false |}.

Definition run (w : World) : Act unit :=
  try_catch
    (apiToken ← getInput w (u "api_token") true;
     wranglerCommandInput ← getInput w (u "wrangler_command") true;
     workingDirectoryInput ← getInput w (u "working_directory") false;
     onlyUploadInput ←
       (v ← getInput w (u "only_upload") false; mret (js_or (Some v) (u "false")));
     let onlyUpload := str_eqb (toLowerCase onlyUploadInput) (u "true") in
     config ← getInput w (u "config") true;
     uploadArgsRaw ← getInput w (u "upload_args") false;
     deployArgsRaw ← getInput w (u "deploy_args") false;
     messageTemplate ← getInput w (u "message_template") false;
     tagTemplate ← getInput w (u "tag_template") false;
     let uploadArgsList := Tokenizer.splitArgs uploadArgsRaw in
     let deployArgsList := Tokenizer.splitArgs deployArgsRaw in
     let workingDirectory :=
       if (0 <? length (trim workingDirectoryInput))%nat
       then Some (trim workingDirectoryInput)
       else None in
     let wranglerCommand := trim wranglerCommandInput in
     if negb (truthy apiToken)
     then setFailed (u "Cloudflare API token (api_token) is required.")
     else
     metadata ← collectMetadata w;
     info (join (u " | ") [
       u "Repository: " ++ nullish (owner metadata) (u "unknown") ++ u "/"
         ++ nullish (repo metadata) (u "unknown");
       u "Branch: "
         ++ nullish (branch metadata) (nullish (ref metadata) (u "unknown"));
       u "SHA: " ++ nullish (sha metadata) (u "unknown");
       u "Actor: " ++ nullish (actor metadata) (u "unknown");
       u "Run: #" ++ nullish (run_number metadata) (u "?") ++ u " (ID: "
         ++ nullish (run_id metadata) (u "?") ++ u ")"
     ]);;
     let context := preTemplateContext metadata in
     let renderedMessage :=
       if truthy messageTemplate
       then Renderer.renderTemplate messageTemplate context
       else buildDefaultMessage metadata in
     let renderedTag :=
       if truthy tagTemplate
       then Renderer.renderTemplate tagTemplate context
       else buildDefaultTag metadata in
     info (u "Using deployment message: " ++ renderedMessage);;
     when (truthy renderedTag)
       (info (u "Using deployment tag: " ++ renderedTag));;
     let uploadArgs :=
       [u "versions"; u "upload"; u "--config"; config]
       ++ uploadArgsList ++ [u "--message=" ++ renderedMessage] in
     info (u "Running upload: " ++ wranglerCommand ++ u " "
           ++ join (u " ") uploadArgs);;
     '(uploadExitCode, uploadChunks) ←
       exec w wranglerCommand uploadArgs
         (wrangler_options apiToken workingDirectory) stream_to_log;
     if negb (uploadExitCode =? 0)%Z
     then setFailed (u "wrangler versions upload failed with exit code "
                     ++ number_to_string uploadExitCode
                     ++ u ". See logs above for details.")
     else
     let versionId :=
       Extractor.parseVersionIdFromUpload (stdout_text uploadChunks) in
     if onlyUpload
     then
       match if_truthy versionId with
       | Some versionId =>
           info (u "Parsed Worker Version ID (only_upload=true): " ++ versionId);;
           setOutput (u "version_id") versionId
       | None =>
           info (u "only_upload=true and no Worker Version ID could be parsed; exiting successfully.")
       end;;
       when (truthy renderedMessage) (setOutput (u "message") renderedMessage);;
       when (truthy renderedTag) (setOutput (u "tag") renderedTag)
     else
     match if_truthy versionId with
     | None =>
         setFailed (u "Failed to parse Worker Version ID from wrangler versions upload output.")
     | Some versionId =>
         info (u "Parsed Worker Version ID: " ++ versionId);;
         let deployArgs :=
           [u "versions"; u "deploy"; versionId; u "-y"; u "--config"; config]
           ++ deployArgsList ++ [u "--message=" ++ renderedMessage] in
         info (u "Running deploy: " ++ wranglerCommand ++ u " "
               ++ join (u " ") deployArgs);;
         '(deployExitCode, deployChunks) ←
           exec w wranglerCommand deployArgs
             (wrangler_options apiToken workingDirectory) stream_to_log;
         if negb (deployExitCode =? 0)%Z
         then setFailed (u "wrangler versions deploy failed with exit code "
                         ++ number_to_string deployExitCode
                         ++ u ". See logs above for details.")
         else
         let deploymentUrl :=
           Extractor.parseWranglerOutput (stdout_text deployChunks) in
         match if_truthy deploymentUrl with
         | Some deploymentUrl =>
             info (u "Detected deployment URL: " ++ deploymentUrl);;
             setOutput (u "deployment_url") deploymentUrl
         | None =>
             info (u "No deployment URL detected from Wrangler deploy output. If this is unexpected, please open an issue with example logs.")
         end;;
         setOutput (u "version_id") versionId;;
         when (truthy renderedMessage) (setOutput (u "message") renderedMessage);;
         when (truthy renderedTag) (setOutput (u "tag") renderedTag)
     end)
    (fun message => setFailed (error_text message)).

(** * Specifications

    The definitions below are not translations of the source: they state, in
    the words of the specification, what the functions above are to compute. *)

(** ** The grammar of a raw argument string

    A raw string reads, from left to right, as a sequence of pieces: an
    unquoted white space, an unquoted ordinary code unit, or a quoted run,
    which opens with a quote, holds no further occurrence of that quote, and
    is closed by it, or by the end of the string. *)

Module TokenizerSpec.

Inductive piece :=
| Sep (c : N)
| Bare (c : N)
| Quoted (q : N) (body : jsstring) (closed : bool).

Definition is_quote (c : N) : bool := (c =? SQUOTE) || (c =? DQUOTE).

(** The text a piece stands for. *)
Definition piece_text (p : piece) : jsstring :=
  match p with
  | Sep c => [c]
  | Bare c => [c]
  | Quoted q body closed => q :: body ++ (if closed then [q] else [])
  end.

(** What a piece gives to the token it is in: the delimiting quotes of a
    quoted run are not part of it. *)
Definition piece_content (p : piece) : jsstring :=
  match p with
  | Sep _ => []
  | Bare c => [c]
  | Quoted _ body _ => body
  end.

Definition piece_ok (p : piece) : bool :=
  match p with
  | Sep c => is_space c
  | Bare c => negb (is_space c) && negb (is_quote c)
  | Quoted q body _ => is_quote q && forallb (fun c => negb (c =? q)) body
  end.

Definition is_open (p : piece) : bool :=
  match p with
  | Quoted _ _ false => true
  | _ => false
  end.

(** Only the last piece may be a quoted run that the end of string closes. *)
Fixpoint well_formed (ps : list piece) : bool :=
  match ps with
  | [] => true
  | [p] => piece_ok p
  | p :: ps' => piece_ok p && negb (is_open p) && well_formed ps'
  end.

Definition text (ps : list piece) : jsstring := flat_map piece_text ps.

(** The pieces between separators. *)
Fixpoint words (ps : list piece) : list (list piece) :=
  match ps with
  | [] => [[]]
  | Sep _ :: ps' => [] :: words ps'
  | p :: ps' =>
      match words ps' with
      | w :: ws => (p :: w) :: ws
      | [] => [[p]]
      end
  end.

(** The tokens of a piece sequence: the contents of its words, adjacent
    pieces concatenated, the empty ones dropped. *)
Definition tokens (ps : list piece) : list jsstring :=
  List.filter truthy (map (flat_map piece_content) (words ps)).

(** The same pieces, every quoted run closed. *)
Definition close_quotes (ps : list piece) : list piece :=
  map (fun p => match p with
                | Quoted q body _ => Quoted q body true
                | _ => p
                end) ps.

End TokenizerSpec.

(** ** Placeholders and renderings *)

Module RendererSpec.
Import Renderer.

(** [s] begins with a placeholder that names [key], and [rest] follows it:
    two opening braces, optional white space, the name (alphanumeric and
    underscore code units, at least one), optional white space, two closing
    braces. *)
Definition placeholder_at (s key rest : jsstring) : Prop :=
  exists ws1 ws2,
    s = [LBRACE; LBRACE] ++ ws1 ++ key ++ ws2 ++ [RBRACE; RBRACE] ++ rest /\
    forallb is_space ws1 = true /\
    forallb is_space ws2 = true /\
    key <> [] /\
    forallb is_word key = true.

(** The value the context itself has for a name: nothing when the name is
    absent or its value undefined. *)
Definition own_value (context : TemplateContext) (key : jsstring) : jsstring :=
  match context !! key with
  | Some (Some value) => value
  | _ => []
  end.

(** [renders_with fn template out]: [out] is [template] read from left to
    right with every placeholder replaced by what [fn] gives for its name,
    and every code unit at which no placeholder begins copied. *)
Inductive renders_with (fn : jsstring -> jsstring)
    : jsstring -> jsstring -> Prop :=
| renders_with_end :
    renders_with fn [] []
| renders_with_placeholder (s key rest out : jsstring) :
    placeholder_at s key rest ->
    renders_with fn rest out ->
    renders_with fn s (fn key ++ out)
| renders_with_text (c : N) (s out : jsstring) :
    (forall key rest, ~ placeholder_at (c :: s) key rest) ->
    renders_with fn s out ->
    renders_with fn (c :: s) (c :: out).

(** [renders context template out], the rendering the specification
    describes: [out] is [template] read from left to right with every
    placeholder replaced by the value the context has for its name, by
    nothing when the context has no value for it, and every code unit at
    which no placeholder begins copied. *)
Inductive renders (context : TemplateContext) : jsstring -> jsstring -> Prop :=
| renders_end :
    renders context [] []
| renders_value (s key rest value out : jsstring) :
    placeholder_at s key rest ->
    context !! key = Some (Some value) ->
    renders context rest out ->
    renders context s (value ++ out)
| renders_undefined (s key rest out : jsstring) :
    placeholder_at s key rest ->
    context !! key = Some None ->
    renders context rest out ->
    renders context s out
| renders_absent (s key rest out : jsstring) :
    placeholder_at s key rest ->
    context !! key = None ->
    renders context rest out ->
    renders context s out
| renders_text (c : N) (s out : jsstring) :
    (forall key rest, ~ placeholder_at (c :: s) key rest) ->
    renders context s out ->
    renders context (c :: s) (c :: out).

(** No placeholder begins anywhere in [s]. *)
Definition placeholder_free (s : jsstring) : Prop :=
  forall before rest key after,
    s = before ++ rest -> ~ placeholder_at rest key after.

End RendererSpec.

(** ** Where a version id stands *)

Module ExtractorSpec.
Import Extractor.

(** [s] begins with the label, optional white space and the identifier [id]:
    a non-empty run of hexadecimal digits and hyphens, taken to its end. *)
Definition version_id_at (s id : jsstring) : Prop :=
  exists ws rest,
    s = VERSION_LABEL ++ ws ++ id ++ rest /\
    forallb is_space ws = true /\
    id <> [] /\
    forallb is_hex_or_hyphen id = true /\
    match rest with [] => True | c :: _ => is_hex_or_hyphen c = false end.

(** [id] is the first version id of [output]: it stands after [before], and
    no version id stands at an earlier position. *)
Definition first_version_id (output id : jsstring) : Prop :=
  exists before rest,
    output = before ++ rest /\
    version_id_at rest id /\
    forall before' rest' id',
      output = before' ++ rest' ->
      (length before' < length before)%nat ->
      ~ version_id_at rest' id'.

Definition no_version_id (output : jsstring) : Prop :=
  forall before rest id, output = before ++ rest -> ~ version_id_at rest id.

End ExtractorSpec.

(** ** Parts of a string around a separator *)

Module MetadataSpec.

(** The text before the first [sep] of [s]: all of [s] when it has none. *)
Fixpoint before_first (sep : N) (s : jsstring) : jsstring :=
  match s with
  | [] => []
  | c :: s' => if c =? sep then [] else c :: before_first sep s'
  end.

(** The entire remainder after the first [sep] of [s], when it has one. *)
Fixpoint after_first (sep : N) (s : jsstring) : option jsstring :=
  match s with
  | [] => None
  | c :: s' => if c =? sep then Some s' else after_first sep s'
  end.

End MetadataSpec.

(** ** What a trace shows *)

Module Trace.

(** The process invocations of a trace, in order. *)
Definition execs (t : list Event)
    : list (jsstring * list jsstring * ExecOptions) :=
  flat_map (fun e => match e with
                     | Exec c a o => [(c, a, o)]
                     | _ => []
                     end) t.

(** The outputs published by a trace, in order. *)
Definition outputs (t : list Event) : list (jsstring * jsstring) :=
  flat_map (fun e => match e with
                     | SetOutput n v => [(n, v)]
                     | _ => []
                     end) t.

(** The messages with which a trace signals failure. *)
Definition failures (t : list Event) : list jsstring :=
  flat_map (fun e => match e with
                     | SetFailed m => [m]
                     | _ => []
                     end) t.

(** An argument list of the upload operation: [versions upload ...]. *)
Definition is_upload (args : list jsstring) : bool :=
  match args with
  | a :: b :: _ => str_eqb a (u "versions") && str_eqb b (u "upload")
  | _ => false
  end.

(** An argument list of the deploy operation: [versions deploy ...]. *)
Definition is_deploy (args : list jsstring) : bool :=
  match args with
  | a :: b :: _ => str_eqb a (u "versions") && str_eqb b (u "deploy")
  | _ => false
  end.

(** [part] occurs in [s]. *)
Definition contains (s part : jsstring) : Prop :=
  exists before after, s = before ++ part ++ after.

End Trace.

(** ** What a run reads from its world *)

Module RunSpec.

(** The invocation of the version-control collaborator. *)
Definition git_call : jsstring * list jsstring * ExecOptions :=
  (u "git", [u "log"; u "-1"; u "--pretty=%B"], git_options).

(** The answer of the world to [git log -1 --pretty=%B]. *)
Definition git_result (w : World) : ExecResult :=
  exec_oracle w (u "git") [u "log"; u "-1"; u "--pretty=%B"] git_options.

(** The commit message the version-control collaborator gives: its trimmed
    output, absent when the lookup fails or prints nothing. *)
Definition last_commit_message (w : World) : option jsstring :=
  match outcome (git_result w) with
  | Exited _ => if_truthy (Some (trim (stdout_text (chunks (git_result w)))))
  | Rejected _ => None
  end.

(** Upload-only mode, as the input [only_upload] selects it. *)
Definition only_upload (w : World) : bool :=
  str_eqb (toLowerCase (js_or (Some (trim (inputs w (u "only_upload"))))
                              (u "false")))
          (u "true").

(** The config path, as the input [config] gives it. *)
Definition config_path (w : World) : jsstring := trim (inputs w (u "config")).

(** The course of a run from its upload invocation on, as its trace [R]
    shows it: which processes were invoked, what was published and which
    failure was signalled, by how the upload ended. *)
Definition course_after_upload (w : World) (cmd : jsstring)
    (uargs : list jsstring) (opts : ExecOptions) (R : list Event) : Prop :=
  let up := exec_oracle w cmd uargs opts in
  match outcome up with
  | Rejected m =>
      Trace.execs R = [git_call; (cmd, uargs, opts)] /\
      Trace.outputs R = [] /\
      Trace.failures R = [error_text m]
  | Exited code =>
      if (code =? 0)%Z then
        match if_truthy (Extractor.parseVersionIdFromUpload
                           (stdout_text (chunks up))) with
        | None =>
            Trace.execs R = [git_call; (cmd, uargs, opts)] /\
            if only_upload w
            then Trace.failures R = [] /\
                 (forall v, ~ In (u "version_id", v) (Trace.outputs R))
            else Trace.failures R
                 = [u "Failed to parse Worker Version ID from wrangler versions upload output."] /\
                 Trace.outputs R = []
        | Some id =>
            if only_upload w
            then Trace.execs R = [git_call; (cmd, uargs, opts)] /\
                 Trace.failures R = [] /\
                 In (u "version_id", id) (Trace.outputs R)
            else exists dmore,
                 Trace.execs R
                 = [git_call; (cmd, uargs, opts);
                    (cmd,
                     [u "versions"; u "deploy"; id; u "-y"; u "--config";
                      config_path w] ++ dmore,
                     opts)]
        end
      else
        Trace.execs R = [git_call; (cmd, uargs, opts)] /\
        Trace.outputs R = [] /\
        Trace.failures R
        = [u "wrangler versions upload failed with exit code "
           ++ number_to_string code ++ u ". See logs above for details."]
  end.

End RunSpec.

(** ** Sample worlds *)

Module Samples.

Definition table_lookup (table : list (string * string)) (name : jsstring)
    : option jsstring :=
  match List.find (fun p => str_eqb (u (fst p)) name) table with
  | Some p => Some (u (snd p))
  | None => None
  end.

(** A world given by tables of inputs and environment variables, and by
    what [git], the upload and the deploy invocations answer. *)
Definition sample_world (ins vars : list (string * string))
    (git upload deploy : ExecResult) : World :=
  {| inputs := fun name =>
       match table_lookup ins name with Some v => v | None => [] end;
     env := table_lookup vars;
     exec_oracle := fun commandLine args _ =>
       if str_eqb commandLine (u "git") then git
       else if Trace.is_upload args then upload
       else deploy |}.

Definition prints (text : jsstring) (code : Z) : ExecResult :=
  {| chunks := [Stdout text]; outcome := Exited code |}.

Definition github_env : list (string * string) :=
  [("GITHUB_REPOSITORY", "octo/site"); ("GITHUB_SHA", "a1b2c3d4e5f6a7b8");
   ("GITHUB_REF", "refs/heads/main"); ("GITHUB_ACTOR", "octocat");
   ("GITHUB_RUN_ID", "77"); ("GITHUB_RUN_NUMBER", "5")]%string.

Definition full_inputs : list (string * string) :=
  [("api_token", "secret"); ("wrangler_command", "npx wrangler");
   ("config", "wrangler.toml"); ("upload_args", "--env production")]%string.

Definition git_ok : ExecResult := prints (u "fix bug" ++ [LF]) 0.

(** Upload prints no version id and exits 0, in full mode. *)
Definition world_no_id_full : World :=
  sample_world full_inputs github_env git_ok
    (prints (u "no id here") 0) (prints [] 0).

(** The same in upload-only mode. *)
Definition world_no_id_only_upload : World :=
  sample_world (("only_upload", "true")%string :: full_inputs) github_env git_ok
    (prints (u "no id here") 0) (prints [] 0).

(** Upload exits 2. *)
Definition world_upload_fails : World :=
  sample_world full_inputs github_env git_ok
    (prints (u "Worker Version ID: abc123-def") 2) (prints [] 0).

(** Upload and deploy succeed. *)
Definition world_success : World :=
  sample_world full_inputs github_env git_ok
    (prints (u "Worker Version ID: abc123-def") 0)
    (prints (u "deployed to https://site.example/x ok") 0).

(** The input [config] is not set. *)
Definition world_no_config : World :=
  sample_world
    [("api_token", "secret"); ("wrangler_command", "npx wrangler")]%string
    github_env git_ok
    (prints (u "Worker Version ID: abc123-def") 0)
    (prints (u "deployed to https://site.example/x ok") 0).

(** The repository variable has two slashes. *)
Definition world_two_slashes : World :=
  sample_world full_inputs [("GITHUB_REPOSITORY", "a/b/c")%string] git_ok
    (prints [] 0) (prints [] 0).

(** The first line of the commit message ends with a space. *)
Definition world_trailing_space : World :=
  sample_world full_inputs github_env
    (prints (u "fix bug " ++ [LF; LF] ++ u "body" ++ [LF]) 0)
    (prints [] 0) (prints [] 0).

End Samples.

(** ** What a run computes before it invokes the tool

    The values [run] binds on its way to the upload invocation, as functions
    of the world and of the collected metadata. *)

Module RunValues.
Import RunSpec.

(** The three required inputs are supplied and the token is not blank. *)
Definition inputs_ok (w : World) : bool :=
  truthy (inputs w (u "api_token"))
  && truthy (inputs w (u "wrangler_command"))
  && truthy (inputs w (u "config"))
  && truthy (trim (inputs w (u "api_token"))).

Definition api_token (w : World) : jsstring := trim (inputs w (u "api_token")).

Definition wrangler_command (w : World) : jsstring :=
  trim (trim (inputs w (u "wrangler_command"))).

Definition working_directory (w : World) : option jsstring :=
  if (0 <? length (trim (trim (inputs w (u "working_directory")))))%nat
  then Some (trim (trim (inputs w (u "working_directory"))))
  else None.

Definition call_options (w : World) : ExecOptions :=
  wrangler_options (api_token w) (working_directory w).

Definition rendered_message (w : World) (md : DeployMetadata) : jsstring :=
  if truthy (trim (inputs w (u "message_template")))
  then Renderer.renderTemplate (trim (inputs w (u "message_template")))
         (preTemplateContext md)
  else buildDefaultMessage md.

Definition rendered_tag (w : World) (md : DeployMetadata) : jsstring :=
  if truthy (trim (inputs w (u "tag_template")))
  then Renderer.renderTemplate (trim (inputs w (u "tag_template")))
         (preTemplateContext md)
  else buildDefaultTag md.

Definition upload_args (w : World) (md : DeployMetadata) : list jsstring :=
  [u "versions"; u "upload"; u "--config"; config_path w]
  ++ Tokenizer.splitArgs (trim (inputs w (u "upload_args")))
  ++ [u "--message=" ++ rendered_message w md].

Definition deploy_args (w : World) (md : DeployMetadata) (versionId : jsstring)
    : list jsstring :=
  [u "versions"; u "deploy"; versionId; u "-y"; u "--config"; config_path w]
  ++ Tokenizer.splitArgs (trim (inputs w (u "deploy_args")))
  ++ [u "--message=" ++ rendered_message w md].

Definition upload_call (w : World) (md : DeployMetadata)
    : jsstring * list jsstring * ExecOptions :=
  (wrangler_command w, upload_args w md, call_options w).

Definition deploy_call (w : World) (md : DeployMetadata) (versionId : jsstring)
    : jsstring * list jsstring * ExecOptions :=
  (wrangler_command w, deploy_args w md versionId, call_options w).

(** What the world answers to the two invocations. *)
Definition upload_result (w : World) (md : DeployMetadata) : ExecResult :=
  exec_oracle w (wrangler_command w) (upload_args w md) (call_options w).

Definition deploy_result (w : World) (md : DeployMetadata)
    (versionId : jsstring) : ExecResult :=
  exec_oracle w (wrangler_command w) (deploy_args w md versionId)
    (call_options w).

(** The version id the run reads in the output of the upload. *)
Definition uploaded_version (w : World) (md : DeployMetadata)
    : option jsstring :=
  if_truthy (Extractor.parseVersionIdFromUpload
               (stdout_text (chunks (upload_result w md)))).

(** The URL the run reads in the output of the deploy. *)
Definition deployed_url (w : World) (md : DeployMetadata)
    (versionId : jsstring) : option jsstring :=
  if_truthy (Extractor.parseWranglerOutput
               (stdout_text (chunks (deploy_result w md versionId)))).

(** [if (value) core.setOutput(name, value)] *)
Definition publish_if (name value : jsstring) : list (jsstring * jsstring) :=
  if truthy value then [(name, value)] else [].

(** What a run with valid inputs shows: its invocations, the outputs it
    publishes and the failures it signals, in order. *)
Definition observed (w : World) (md : DeployMetadata)
    : list (jsstring * list jsstring * ExecOptions)
      * list (jsstring * jsstring) * list jsstring :=
  let message := rendered_message w md in
  let tag := rendered_tag w md in
  match outcome (upload_result w md) with
  | Rejected m => ([git_call; upload_call w md], [], [error_text m])
  | Exited code =>
      if (code =? 0)%Z then
        match uploaded_version w md with
        | None =>
            if only_upload w
            then ([git_call; upload_call w md],
                  publish_if (u "message") message ++ publish_if (u "tag") tag,
                  [])
            else ([git_call; upload_call w md], [],
                  [u "Failed to parse Worker Version ID from wrangler versions upload output."])
        | Some id =>
            if only_upload w
            then ([git_call; upload_call w md],
                  [(u "version_id", id)]
                  ++ publish_if (u "message") message
                  ++ publish_if (u "tag") tag,
                  [])
            else
              match outcome (deploy_result w md id) with
              | Rejected m =>
                  ([git_call; upload_call w md; deploy_call w md id], [],
                   [error_text m])
              | Exited dcode =>
                  if (dcode =? 0)%Z then
                    ([git_call; upload_call w md; deploy_call w md id],
                     match deployed_url w md id with
                     | Some url => [(u "deployment_url", url)]
                     | None => []
                     end
                     ++ [(u "version_id", id)]
                     ++ publish_if (u "message") message
                     ++ publish_if (u "tag") tag,
                     [])
                  else
                    ([git_call; upload_call w md; deploy_call w md id], [],
                     [u "wrangler versions deploy failed with exit code "
                      ++ number_to_string dcode
                      ++ u ". See logs above for details."])
              end
        end
      else
        ([git_call; upload_call w md], [],
         [u "wrangler versions upload failed with exit code "
          ++ number_to_string code ++ u ". See logs above for details."])
  end.

End RunValues.

(** ** More notions for the tokenizer, the renderer and the extractor *)

Module MoreSpec.
Import Renderer RendererSpec Extractor.

(** A code unit that is neither white space nor a quote. *)
Definition is_plain (c : N) : bool :=
  negb (is_space c) && negb (TokenizerSpec.is_quote c).

(** The quote inside which the loop of [splitArgs] stands when it has read
    [raw]: none when every quote of [raw] is closed. *)
Definition open_quote (raw : jsstring) : option N :=
  Tokenizer.quote (fold_left Tokenizer.loop_body raw Tokenizer.loop_init).

(** [template] has, at some position, a placeholder that names [key]. *)
Definition names_key (template key : jsstring) : Prop :=
  exists before suffix rest,
    template = before ++ suffix /\ placeholder_at suffix key rest.

(** [s] begins with the URL [url]: [http] or [https], a colon and two
    slashes, and a non-empty run, taken to its end, of code units that are
    neither white space nor a double quote. *)
Definition url_at (s url : jsstring) : Prop :=
  exists scheme body rest,
    (scheme = u "http" \/ scheme = u "https") /\
    s = scheme ++ u "://" ++ body ++ rest /\
    url = scheme ++ u "://" ++ body /\
    body <> [] /\
    forallb is_url_char body = true /\
    match rest with [] => True | c :: _ => is_url_char c = false end.

(** [url] is the first URL of [output]. *)
Definition first_url (output url : jsstring) : Prop :=
  exists before rest,
    output = before ++ rest /\
    url_at rest url /\
    forall before' rest' url',
      output = before' ++ rest' ->
      (length before' < length before)%nat ->
      ~ url_at rest' url'.

Definition no_url (output : jsstring) : Prop :=
  forall before rest url, output = before ++ rest -> ~ url_at rest url.

End MoreSpec.

(** ** More sample worlds *)

Module MoreSamples.
Import Samples.

(** Upload succeeds, deploy exits 3 after printing a URL. *)
Definition world_deploy_fails : World :=
  sample_world full_inputs github_env git_ok
    (prints (u "Worker Version ID: abc123-def") 0)
    (prints (u "see https://site.example/x") 3).

(** Upload-only mode, the upload prints a version id; a tag template is
    given. *)
Definition world_only_upload_with_id : World :=
  sample_world
    (("only_upload", "TRUE") :: ("tag_template", "v-{{short_sha}}")
     :: full_inputs)%string
    github_env git_ok
    (prints (u "Worker Version ID: abc123-def") 0)
    (prints (u "deployed to https://site.example/x ok") 0).

(** The token is supplied, but blank. *)
Definition world_blank_token : World :=
  sample_world
    [("api_token", "  "); ("wrangler_command", "npx wrangler");
     ("config", "wrangler.toml")]%string
    github_env git_ok (prints [] 0) (prints [] 0).

(** The version-control lookup fails; the ref is a tag. *)
Definition world_no_git : World :=
  sample_world full_inputs
    [("GITHUB_REPOSITORY", "octo/site"); ("GITHUB_SHA", "a1b2c3d4e5f6a7b8");
     ("GITHUB_REF", "refs/tags/v1")]%string
    {| chunks := [Stdout (u "partial")];
       outcome := Rejected (u "git: not found") |}
    (prints (u "Worker Version ID: abc123-def") 0)
    (prints (u "deployed to https://site.example/x ok") 0).

End MoreSamples.

(** * Proofs *)

(** ** Classes of code units and white space *)

Lemma truthy_false (s : jsstring) : truthy s = false <-> s = [].
Proof. destruct s; simpl; split; congruence. Qed.

Lemma truthy_true (s : jsstring) : truthy s = true <-> s <> [].
Proof. destruct s; simpl; split; congruence. Qed.

Lemma truthy_app_l (a b : jsstring) : truthy a = true -> truthy (a ++ b) = true.
Proof. destruct a; simpl; congruence. Qed.

Lemma space_not_quote (c : N) :
  is_space c = true -> TokenizerSpec.is_quote c = false.
Proof.
  intros Hs. unfold TokenizerSpec.is_quote.
  destruct (N.eqb_spec c SQUOTE) as [-> | _]; [discriminate Hs |].
  destruct (N.eqb_spec c DQUOTE) as [-> | _]; [discriminate Hs | reflexivity].
Qed.

Lemma trimStart_nil (s : jsstring) :
  trimStart s = [] <-> forallb is_space s = true.
Proof.
  induction s as [| c s IH]; simpl; [tauto |].
  destruct (is_space c); simpl; [exact IH | split; discriminate].
Qed.

Lemma trimStart_head (s r : jsstring) (c : N) :
  trimStart s = c :: r -> is_space c = false.
Proof.
  induction s as [| d s IH]; simpl; [discriminate |].
  destruct (is_space d) eqn:Hd; [exact IH | congruence].
Qed.

Lemma trim_nil (s : jsstring) : trim s = [] <-> forallb is_space s = true.
Proof.
  unfold trim, trimEnd. split.
  - intros H. apply trimStart_nil.
    assert (Hr : trimStart (rev (trimStart s)) = []).
    { rewrite <- (rev_involutive (trimStart _)), H. reflexivity. }
    apply trimStart_nil in Hr.
    destruct (trimStart s) as [| c r] eqn:E; [reflexivity |].
    exfalso. apply trimStart_head in E.
    rewrite forallb_forall in Hr. specialize (Hr c).
    rewrite <- in_rev in Hr. rewrite Hr in E; [discriminate | left; reflexivity].
  - intros H. apply trimStart_nil in H. rewrite H. reflexivity.
Qed.

(** ** The argument tokenizer *)

Section TokenizerProofs.
Import Tokenizer TokenizerSpec.

Lemma loop_spaces (raw : jsstring) (a : list jsstring) :
  forallb is_space raw = true ->
  fold_left loop_body raw (LoopState a [] None) = LoopState a [] None.
Proof.
  induction raw as [| c raw IH]; simpl; [reflexivity |].
  intros H. apply andb_prop in H as [Hc Hr].
  unfold loop_body at 2. simpl.
  pose proof (space_not_quote c Hc) as Hq. unfold is_quote in Hq.
  rewrite Hq, Hc. exact (IH Hr).
Qed.

(** The early return of [splitArgs] agrees with its loop. *)
Lemma splitArgs_loop (raw : jsstring) :
  splitArgs raw = loop_exit (fold_left loop_body raw loop_init).
Proof.
  unfold splitArgs. destruct (truthy (trim raw)) eqn:E; simpl; [reflexivity |].
  apply truthy_false, trim_nil in E.
  unfold loop_init. rewrite (loop_spaces raw [] E). reflexivity.
Qed.

Lemma loop_body_nonempty (st : loop_state) (ch : N) :
  Forall (fun t => t <> []) (args st) ->
  Forall (fun t => t <> []) (args (loop_body st ch)).
Proof.
  intros H. unfold loop_body.
  destruct (quote st) as [q |].
  - destruct (ch =? q); exact H.
  - destruct ((ch =? SQUOTE) || (ch =? DQUOTE)); [exact H |].
    destruct (is_space ch); [| exact H].
    destruct (truthy (current st)) eqn:E; [| exact H].
    simpl. apply Forall_app; split; [exact H |].
    constructor; [| constructor]. apply truthy_true, E.
Qed.

Lemma loop_nonempty (raw : jsstring) (st : loop_state) :
  Forall (fun t => t <> []) (args st) ->
  Forall (fun t => t <> []) (args (fold_left loop_body raw st)).
Proof.
  revert st. induction raw as [| c raw IH]; intros st H; simpl; [exact H |].
  apply IH, loop_body_nonempty, H.
Qed.

Lemma loop_quoted (body : jsstring) (q : N) (a : list jsstring) (cur : jsstring) :
  forallb (fun c => negb (c =? q)) body = true ->
  fold_left loop_body body (LoopState a cur (Some q))
  = LoopState a (cur ++ body) (Some q).
Proof.
  revert cur. induction body as [| c body IH]; intros cur H; simpl.
  - rewrite app_nil_r. reflexivity.
  - apply andb_prop in H as [Hc Hb]. unfold loop_body at 2. simpl.
    apply negb_true_iff in Hc. rewrite Hc, (IH _ Hb), <- app_assoc.
    reflexivity.
Qed.

Lemma words_cons (ps : list piece) : exists w ws, words ps = w :: ws.
Proof.
  induction ps as [| p ps [w [ws E]]]; simpl; [eauto |].
  destruct p; rewrite ?E; eauto.
Qed.

(** The loop on the text of a piece sequence, from a state outside quotes:
    the pending token is continued by the first word. *)
Lemma loop_pieces (ps : list piece) :
  well_formed ps = true ->
  forall (a : list jsstring) (cur : jsstring),
  exists w ws,
    map (flat_map piece_content) (words ps) = w :: ws /\
    loop_exit (fold_left loop_body (text ps) (LoopState a cur None))
    = a ++ List.filter truthy ((cur ++ w) :: ws).
Proof.
  induction ps as [| p ps IH]; intros Hwf a cur.
  - exists [], []. split; [reflexivity |]. simpl. rewrite app_nil_r.
    unfold loop_exit. simpl. destruct (truthy cur); [reflexivity |].
    symmetry. apply app_nil_r.
  - assert (Hp : piece_ok p = true /\
                 (is_open p = true -> ps = []) /\ well_formed ps = true).
    { simpl in Hwf. destruct ps as [| p' ps'].
      - split; [exact Hwf | split; reflexivity].
      - apply andb_prop in Hwf as [H1 H3]. apply andb_prop in H1 as [H1 H2].
        apply negb_true_iff in H2. split; [exact H1 |].
        split; [rewrite H2; discriminate | exact H3]. }
    destruct Hp as [Hok [Hopen Hwf']].
    unfold text. simpl flat_map. rewrite fold_left_app. fold (text ps).
    destruct p as [c | c | q body closed]; simpl in Hok.
    + (* a separator ends the pending token *)
      simpl piece_text. simpl fold_left at 2. unfold loop_body at 2. simpl.
      pose proof (space_not_quote c Hok) as Hq. unfold is_quote in Hq.
      rewrite Hq, Hok.
      destruct (truthy cur) eqn:Ecur.
      * destruct (IH Hwf' (a ++ [cur]) []) as [w [ws [E1 E2]]].
        exists [], (w :: ws). split; [simpl; rewrite E1; reflexivity |].
        rewrite E2. simpl. rewrite app_nil_r, Ecur, <- app_assoc. reflexivity.
      * apply truthy_false in Ecur. subst cur.
        destruct (IH Hwf' a []) as [w [ws [E1 E2]]].
        exists [], (w :: ws). split; [simpl; rewrite E1; reflexivity |].
        rewrite E2. reflexivity.
    + (* an ordinary code unit continues it *)
      apply andb_prop in Hok as [Hs Hq]. apply negb_true_iff in Hs, Hq.
      simpl piece_text. simpl fold_left at 2. unfold loop_body at 2. simpl.
      unfold is_quote in Hq. rewrite Hq, Hs.
      destruct (IH Hwf' a (cur ++ [c])) as [w [ws [E1 E2]]].
      destruct (words_cons ps) as [w0 [ws0 E0]].
      exists (c :: w), ws. split.
      * simpl. rewrite E0. rewrite E0 in E1. simpl in *.
        inversion E1; subst. reflexivity.
      * rewrite E2, <- app_assoc. reflexivity.
    + (* a quoted run continues it with its body *)
      apply andb_prop in Hok as [Hq Hb].
      assert (Hopenq : fold_left loop_body [q] (LoopState a cur None)
                       = LoopState a cur (Some q)).
      { simpl. unfold loop_body. simpl. unfold is_quote in Hq.
        rewrite Hq. reflexivity. }
      destruct closed.
      * simpl piece_text.
        change (q :: body ++ [q]) with ([q] ++ body ++ [q]).
        rewrite !fold_left_app, Hopenq, (loop_quoted body q a cur Hb).
        simpl fold_left at 2. unfold loop_body at 2. simpl.
        rewrite N.eqb_refl.
        destruct (IH Hwf' a (cur ++ body)) as [w [ws [E1 E2]]].
        destruct (words_cons ps) as [w0 [ws0 E0]].
        exists (body ++ w), ws. split.
        -- simpl. rewrite E0. rewrite E0 in E1. simpl in *.
           inversion E1; subst. reflexivity.
        -- rewrite E2, <- app_assoc. reflexivity.
      * rewrite (Hopen eq_refl). simpl piece_text. simpl text.
        change (q :: body ++ []) with ([q] ++ body ++ []).
        rewrite app_nil_r, fold_left_app, Hopenq, (loop_quoted body q a cur Hb).
        exists body, []. split; [simpl; rewrite app_nil_r; reflexivity |].
        simpl fold_left. unfold loop_exit. simpl.
        destruct (truthy (cur ++ body)); [reflexivity |].
        symmetry. apply app_nil_r.
Qed.

Lemma splitArgs_pieces (ps : list piece) :
  well_formed ps = true -> splitArgs (text ps) = tokens ps.
Proof.
  intros Hwf. rewrite splitArgs_loop. unfold loop_init.
  destruct (loop_pieces ps Hwf [] []) as [w [ws [E1 E2]]].
  rewrite E2. unfold tokens. rewrite E1. reflexivity.
Qed.

End TokenizerProofs.

(** ** Greedy runs *)

Lemma span_spec (p : N -> bool) (s run rest : jsstring) :
  span p s = (run, rest) ->
  s = run ++ rest /\ forallb p run = true /\
  match rest with [] => True | c :: _ => p c = false end.
Proof.
  revert run rest. induction s as [| c s IH]; intros run rest H; simpl in H.
  - inversion H; subst. repeat split.
  - destruct (p c) eqn:Hc.
    + destruct (span p s) as [run' rest'] eqn:E. inversion H; subst.
      destruct (IH run' rest eq_refl) as [H1 [H2 H3]].
      repeat split; simpl; [rewrite H1 at 1; reflexivity | | exact H3].
      rewrite Hc, H2. reflexivity.
    + inversion H; subst. repeat split. exact Hc.
Qed.

(** A run of the class followed by something outside it is what [span]
    finds. *)
Lemma span_unique (p : N -> bool) (run rest : jsstring) :
  forallb p run = true ->
  match rest with [] => True | c :: _ => p c = false end ->
  span p (run ++ rest) = (run, rest).
Proof.
  intros Hrun Hrest. induction run as [| c run IH]; simpl.
  - destruct rest as [| d rest]; simpl; [reflexivity |]. rewrite Hrest.
    reflexivity.
  - simpl in Hrun. apply andb_prop in Hrun as [Hc Hrun].
    rewrite Hc, (IH Hrun). reflexivity.
Qed.

Lemma strip_prefix_spec (lit s rest : jsstring) :
  strip_prefix lit s = Some rest <-> s = lit ++ rest.
Proof.
  revert s. induction lit as [| a lit IH]; intros s; simpl.
  - split; congruence.
  - destruct s as [| b s]; [split; discriminate |].
    destruct (N.eqb_spec a b) as [-> | Hne].
    + rewrite IH. split; congruence.
    + split; [discriminate | congruence].
Qed.

Section TokenizerGrammar.
Import Tokenizer TokenizerSpec.

Lemma well_formed_cons (p : piece) (ps : list piece) :
  piece_ok p = true -> is_open p = false -> well_formed ps = true ->
  well_formed (p :: ps) = true.
Proof.
  intros H1 H2 H3. simpl. destruct ps; [exact H1 |].
  rewrite H1, H2, H3. reflexivity.
Qed.

(** Every raw string reads as a well-formed piece sequence. *)
Lemma pieces_exist (raw : jsstring) :
  exists ps, well_formed ps = true /\ text ps = raw.
Proof.
  remember (length raw) as n eqn:Hn. revert raw Hn.
  induction n as [n IH] using lt_wf_ind. intros raw Hn.
  destruct raw as [| c r]; [exists []; split; reflexivity |].
  destruct (is_quote c) eqn:Hq.
  - destruct (span (fun d => negb (d =? c)) r) as [body rest] eqn:E.
    apply span_spec in E as [Hr [Hbody Hstop]].
    destruct rest as [| d rest].
    + exists [Quoted c body false]. split.
      * simpl. rewrite Hq, Hbody. reflexivity.
      * unfold text. simpl. rewrite !app_nil_r in *. congruence.
    + apply negb_false_iff, N.eqb_eq in Hstop. subst d.
      destruct (IH (length rest)) with (raw := rest) as [ps [Hwf Ht]];
        [ | reflexivity | ].
      { subst n r. simpl. rewrite length_app. simpl. lia. }
      exists (Quoted c body true :: ps). split.
      * apply well_formed_cons; [| reflexivity | exact Hwf].
        simpl. rewrite Hq, Hbody. reflexivity.
      * unfold text in *. simpl. rewrite Ht, Hr, <- app_assoc. reflexivity.
  - destruct (IH (length r)) with (raw := r) as [ps [Hwf Ht]];
      [subst n; simpl; lia | reflexivity |].
    destruct (is_space c) eqn:Hs.
    + exists (Sep c :: ps). split.
      * apply well_formed_cons; [exact Hs | reflexivity | exact Hwf].
      * unfold text in *. simpl. rewrite Ht. reflexivity.
    + exists (Bare c :: ps). split.
      * apply well_formed_cons; [| reflexivity | exact Hwf].
        simpl. rewrite Hs, Hq. reflexivity.
      * unfold text in *. simpl. rewrite Ht. reflexivity.
Qed.

Lemma well_formed_close (ps : list piece) :
  well_formed ps = true -> well_formed (close_quotes ps) = true.
Proof.
  induction ps as [| p ps IH]; intros H; [reflexivity |].
  assert (Hp : piece_ok p = true /\ well_formed ps = true).
  { simpl in H. destruct ps; [split; [exact H | reflexivity] |].
    apply andb_prop in H as [H1 H3]. apply andb_prop in H1 as [H1 _].
    split; assumption. }
  destruct Hp as [Hok Hwf]. change (close_quotes (p :: ps))
    with ((match p with Quoted q b _ => Quoted q b true | _ => p end)
          :: close_quotes ps).
  apply well_formed_cons; [| | exact (IH Hwf)]; destruct p; auto.
Qed.

Lemma tokens_close (ps : list piece) : tokens (close_quotes ps) = tokens ps.
Proof.
  unfold tokens. f_equal.
  induction ps as [| p ps IH]; [reflexivity |].
  destruct (words_cons ps) as [w [ws E]].
  destruct (words_cons (close_quotes ps)) as [w' [ws' E']].
  change (close_quotes (p :: ps))
    with ((match p with Quoted q b _ => Quoted q b true | _ => p end)
          :: close_quotes ps).
  destruct p; simpl; rewrite ?E, ?E'; rewrite E, E' in IH; simpl in *;
    congruence.
Qed.

End TokenizerGrammar.

Section TokenizerClaims.
Import Tokenizer TokenizerSpec.

(** C2, as stated, fails: a quote character does appear in a token when it
    stands inside a run quoted with the other quote character. The raw
    string is the five code units of a double-quoted [a'b]. *)
Lemma splitArgs_keeps_inner_quote :
  splitArgs [DQUOTE; 97; SQUOTE; 98; DQUOTE] = [[97; SQUOTE; 98]] /\
  exists tok c,
    In tok (splitArgs [DQUOTE; 97; SQUOTE; 98; DQUOTE]) /\
    In c tok /\ is_quote c = true.
Proof.
  split; [reflexivity |].
  exists [97; SQUOTE; 98], SQUOTE. cbn. intuition.
Qed.

(** C2, amended: [splitArgs] is total; every raw string reads as a sequence
    of pieces (unquoted white space, unquoted ordinary code units, quoted
    runs) and its tokens are the contents of the maximal runs of pieces
    between unquoted white space, adjacent pieces concatenated into one
    token; only the two quotes that delimit a quoted run are consumed, all
    that stands between them (white space, and a quote of the other kind) is
    content; a quoted run that the end of the string closes counts as closed;
    an empty or white-space-only string has no tokens. *)
Theorem splitArgs_contract :
  (forall raw : jsstring,
     exists ps, well_formed ps = true /\ text ps = raw /\
                splitArgs raw = tokens ps) /\
  (forall ps : list piece,
     well_formed ps = true -> splitArgs (text ps) = tokens ps) /\
  (forall ps : list piece,
     well_formed ps = true ->
     well_formed (close_quotes ps) = true /\
     splitArgs (text ps) = splitArgs (text (close_quotes ps))) /\
  (forall raw : jsstring, forallb is_space raw = true -> splitArgs raw = []) /\
  splitArgs [] = [] /\
  splitArgs (u "a'b c'd") = [u "ab cd"] /\
  splitArgs (u "--env production") = [u "--env"; u "production"] /\
  splitArgs (u "--msg " ++ [DQUOTE] ++ u "hello world" ++ [DQUOTE])
  = [u "--msg"; u "hello world"] /\
  splitArgs (u "a" ++ [DQUOTE] ++ u "b" ++ [DQUOTE] ++ u "c") = [u "abc"] /\
  splitArgs (u "x " ++ [DQUOTE] ++ u "unterminated y") = [u "x"; u "unterminated y"].
Proof.
  split; [| split; [| split; [| split]]].
  - intros raw. destruct (pieces_exist raw) as [ps [Hwf Ht]].
    exists ps. split; [exact Hwf |]. split; [exact Ht |].
    rewrite <- Ht. apply splitArgs_pieces, Hwf.
  - exact splitArgs_pieces.
  - intros ps Hwf. pose proof (well_formed_close ps Hwf) as Hc.
    split; [exact Hc |].
    rewrite (splitArgs_pieces ps Hwf), (splitArgs_pieces _ Hc).
    symmetry. apply tokens_close.
  - intros raw H. unfold splitArgs.
    apply trim_nil in H. rewrite H. reflexivity.
  - repeat split; reflexivity.
Qed.

(** C10: no token of [splitArgs] is empty; a quoted empty string gives no
    token. *)
Theorem splitArgs_no_empty_token :
  (forall raw : jsstring, Forall (fun tok => tok <> []) (splitArgs raw)) /\
  splitArgs [DQUOTE; DQUOTE] = [] /\
  splitArgs (u "a " ++ [DQUOTE; DQUOTE] ++ u " b") = [u "a"; u "b"].
Proof.
  split; [| split; reflexivity].
  intros raw. rewrite splitArgs_loop. unfold loop_exit.
  pose proof (loop_nonempty raw loop_init (List.Forall_nil _)) as H.
  destruct (truthy (current _)) eqn:E; [| exact H].
  apply Forall_app; split; [exact H |].
  constructor; [| constructor]. apply truthy_true, E.
Qed.

End TokenizerClaims.

(** ** The template renderer *)

Section RendererProofs.
Import Renderer RendererSpec MoreSpec.

Lemma word_not_space (c : N) : is_word c = true -> is_space c = false.
Proof.
  unfold is_word, is_space. intros H.
  repeat (rewrite ?orb_true_iff, ?andb_true_iff, ?N.eqb_eq, ?N.leb_le in H).
  repeat (rewrite ?orb_false_iff, ?andb_false_iff, ?N.eqb_neq, ?N.leb_gt).
  lia.
Qed.

Lemma space_not_word (c : N) : is_space c = true -> is_word c = false.
Proof.
  intros H. destruct (is_word c) eqn:E; [| reflexivity].
  apply word_not_space in E. congruence.
Qed.

Lemma strip_prefix_app (lit rest : jsstring) :
  strip_prefix lit (lit ++ rest) = Some rest.
Proof. apply strip_prefix_spec. reflexivity. Qed.

(** The match attempt finds exactly the placeholders of the
    specification. *)
Lemma match_placeholder_spec (s key rest : jsstring) :
  match_placeholder s = Some (key, rest) <-> placeholder_at s key rest.
Proof.
  unfold match_placeholder, placeholder_at. split.
  - destruct (strip_prefix [LBRACE; LBRACE] s) as [s1 |] eqn:E0;
      [| discriminate].
    apply strip_prefix_spec in E0.
    destruct (span is_space s1) as [ws1 s2] eqn:E1.
    destruct (span is_word s2) as [k s3] eqn:E2.
    destruct (truthy k) eqn:Ek; [| discriminate].
    destruct (span is_space s3) as [ws2 s4] eqn:E3.
    destruct (strip_prefix [RBRACE; RBRACE] s4) as [r |] eqn:E4;
      [| discriminate].
    intros H. inversion H; subst k r. clear H.
    apply strip_prefix_spec in E4.
    apply span_spec in E1 as [H1 [W1 _]].
    apply span_spec in E2 as [H2 [W2 _]].
    apply span_spec in E3 as [H3 [W3 _]].
    exists ws1, ws2. subst s s1 s2 s3 s4.
    repeat split; try assumption. apply truthy_true, Ek.
  - intros [ws1 [ws2 [-> [W1 [W2 [Hk Wk]]]]]].
    rewrite strip_prefix_app.
    destruct key as [| k0 key]; [congruence |].
    pose proof Wk as Wk'. simpl in Wk'. apply andb_prop in Wk' as [Hk0 _].
    rewrite (span_unique is_space ws1 _ W1);
      [| simpl; apply word_not_space, Hk0].
    rewrite (span_unique is_word (k0 :: key) _ Wk).
    2:{ destruct ws2 as [| d ws2]; simpl; [reflexivity |].
        simpl in W2. apply andb_prop in W2 as [Hd _].
        apply space_not_word, Hd. }
    simpl truthy. cbv iota.
    rewrite (span_unique is_space ws2 _ W2); [| reflexivity].
    rewrite strip_prefix_app. reflexivity.
Qed.

Lemma placeholder_shorter (s key rest : jsstring) :
  placeholder_at s key rest -> (length rest < length s)%nat.
Proof.
  intros [ws1 [ws2 [-> _]]]. rewrite !length_app. simpl. lia.
Qed.

(** What the callback gives: the context's own value where the context
    has the name, else what [Object.prototype] has for it. *)
Lemma lookup_own (context : TemplateContext) (key : jsstring) :
  object_prototype !! key = None ->
  lookup_value context key = own_value context key.
Proof.
  intros H. unfold lookup_value, own_value. rewrite H.
  destruct (context !! key) as [[value |] |]; reflexivity.
Qed.

Lemma lookup_inherited (context : TemplateContext) (key text : jsstring) :
  context !! key = None ->
  object_prototype !! key = Some text ->
  lookup_value context key = text.
Proof. intros H1 H2. unfold lookup_value. rewrite H1, H2. reflexivity. Qed.

Lemma renders_with_replace (fn : jsstring -> jsstring) (fuel : nat) :
  forall s : jsstring,
    (length s <= fuel)%nat ->
    renders_with fn s (replace_placeholders fuel fn s).
Proof.
  induction fuel as [| fuel IH]; intros s Hlen.
  - destruct s; [constructor | simpl in Hlen; lia].
  - destruct s as [| c s]; [constructor |].
    simpl replace_placeholders.
    destruct (match_placeholder (c :: s)) as [[key rest] |] eqn:E.
    + apply match_placeholder_spec in E.
      pose proof (placeholder_shorter _ _ _ E) as Hlt.
      eapply renders_with_placeholder; [exact E |].
      apply IH. simpl in Hlen, Hlt. lia.
    + apply renders_with_text.
      * intros key rest H. apply match_placeholder_spec in H. congruence.
      * apply IH. simpl in Hlen. lia.
Qed.

Lemma placeholder_unique (s key rest key' rest' : jsstring) :
  placeholder_at s key rest -> placeholder_at s key' rest' ->
  key = key' /\ rest = rest'.
Proof.
  intros H H'. apply match_placeholder_spec in H, H'.
  rewrite H in H'. inversion H'. split; reflexivity.
Qed.

Lemma renders_with_inv (fn : jsstring -> jsstring) (s out : jsstring) :
  renders_with fn s out ->
  match s with
  | [] => out = []
  | c :: s' =>
      match match_placeholder s with
      | Some (key, rest) =>
          exists out', renders_with fn rest out' /\ out = fn key ++ out'
      | None => exists out', renders_with fn s' out' /\ out = c :: out'
      end
  end.
Proof.
  intros H.
  destruct H as [| s key rest out Hp Hr | c s out Hn Hr].
  - reflexivity.
  - pose proof (placeholder_shorter _ _ _ Hp) as Hlt.
    apply match_placeholder_spec in Hp.
    destruct s; [simpl in Hlt; lia |]. rewrite Hp.
    exists out. split; [exact Hr | reflexivity].
  - destruct (match_placeholder (c :: s)) as [[key rest] |] eqn:E.
    + apply match_placeholder_spec in E. exfalso. exact (Hn _ _ E).
    + exists out. split; [exact Hr | reflexivity].
Qed.

(** A template has one rendering. *)
Lemma renders_with_deterministic (fn : jsstring -> jsstring)
    (s out out' : jsstring) :
  renders_with fn s out -> renders_with fn s out' -> out = out'.
Proof.
  remember (length s) as n eqn:Hn. revert s out out' Hn.
  induction n as [n IH] using lt_wf_ind. intros s out out' Hn H H'.
  apply renders_with_inv in H, H'.
  destruct s as [| c s]; [congruence |].
  destruct (match_placeholder (c :: s)) as [[key rest] |] eqn:E.
  - destruct H as [o [Hr ->]]. destruct H' as [o' [Hr' ->]].
    apply match_placeholder_spec, placeholder_shorter in E.
    f_equal. eapply (IH (length rest)); [lia | reflexivity | eassumption ..].
  - destruct H as [o [Hr ->]]. destruct H' as [o' [Hr' ->]].
    f_equal. eapply (IH (length s)); [simpl in Hn; lia | reflexivity
                                     | eassumption ..].
Qed.

Lemma renders_with_free (fn : jsstring -> jsstring) (s : jsstring) :
  placeholder_free s -> renders_with fn s s.
Proof.
  induction s as [| c s IH]; intros Hfree; [constructor |].
  apply renders_with_text.
  - intros key rest. apply (Hfree [] (c :: s)). reflexivity.
  - apply IH. intros before rest key after ->.
    apply (Hfree (c :: before) rest). reflexivity.
Qed.

(** The rendering of the specification is the rendering with the context's
    own values. *)
Lemma renders_own (context : TemplateContext) (s out : jsstring) :
  renders context s out <-> renders_with (own_value context) s out.
Proof.
  split.
  - induction 1 as [| s key rest value out Hp Hk Hr IH
                    | s key rest out Hp Hk Hr IH
                    | s key rest out Hp Hk Hr IH
                    | c s out Hn Hr IH].
    + constructor.
    + replace value with (own_value context key)
        by (unfold own_value; rewrite Hk; reflexivity).
      eapply renders_with_placeholder; eassumption.
    + change out with ([] ++ out).
      replace (@nil N) with (own_value context key) at 1
        by (unfold own_value; rewrite Hk; reflexivity).
      eapply renders_with_placeholder; eassumption.
    + change out with ([] ++ out).
      replace (@nil N) with (own_value context key) at 1
        by (unfold own_value; rewrite Hk; reflexivity).
      eapply renders_with_placeholder; eassumption.
    + apply renders_with_text; assumption.
  - induction 1 as [| s key rest out Hp Hr IH | c s out Hn Hr IH].
    + constructor.
    + unfold own_value.
      destruct (context !! key) as [[value |] |] eqn:Ek.
      * eapply renders_value; eassumption.
      * eapply renders_undefined; eassumption.
      * eapply renders_absent; eassumption.
    + apply renders_text; assumption.
Qed.

(** What [renderTemplate] returns is the rendering with its callback, and
    the only one. *)
Lemma renderTemplate_renders (template : jsstring) (context : TemplateContext) :
  renders_with (lookup_value context) template
    (renderTemplate template context).
Proof. apply renders_with_replace. reflexivity. Qed.

Lemma render_characterised (template : jsstring) (context : TemplateContext)
    (out : jsstring) :
  renders_with (lookup_value context) template out ->
  renderTemplate template context = out.
Proof.
  intros H. eapply renders_with_deterministic; [| exact H].
  apply renderTemplate_renders.
Qed.

(** The rendering of a template that begins with a placeholder. *)
Lemma render_placeholder (context : TemplateContext) (s key rest : jsstring) :
  placeholder_at s key rest ->
  renderTemplate s context
  = lookup_value context key ++ renderTemplate rest context.
Proof.
  intros Hp. apply render_characterised.
  eapply renders_with_placeholder; [exact Hp |].
  apply renderTemplate_renders.
Qed.

(** Two callbacks that agree on the names of a template render it alike. *)
Lemma replace_agree (f1 f2 : jsstring -> jsstring) (fuel : nat) :
  forall s : jsstring,
    (forall key, names_key s key -> f1 key = f2 key) ->
    replace_placeholders fuel f1 s = replace_placeholders fuel f2 s.
Proof.
  induction fuel as [| fuel IH]; intros s Hagree; [reflexivity |].
  destruct s as [| c s]; [reflexivity |]. simpl.
  destruct (match_placeholder (c :: s)) as [[key rest] |] eqn:E.
  - apply match_placeholder_spec in E.
    rewrite (Hagree key) by (exists [], (c :: s), rest; split; auto).
    f_equal. apply IH. intros k [before [suffix [r [Hs Hp]]]].
    apply Hagree. destruct E as [ws1 [ws2 [Hcs _]]].
    exists (([LBRACE; LBRACE] ++ ws1 ++ key ++ ws2 ++ [RBRACE; RBRACE])
            ++ before), suffix, r.
    split; [| exact Hp]. rewrite Hcs, Hs, <- !app_assoc. reflexivity.
  - f_equal. apply IH. intros k [before [suffix [r [Hs Hp]]]].
    apply Hagree. exists (c :: before), suffix, r.
    split; [rewrite Hs; reflexivity | exact Hp].
Qed.

End RendererProofs.

Section RendererClaims.
Import Renderer RendererSpec MoreSpec.

Lemma pre_context_deployment_url (metadata : DeployMetadata) :
  preTemplateContext metadata !! u "deployment_url" = Some None.
Proof.
  unfold preTemplateContext.
  rewrite lookup_insert_ne by (vm_compute; discriminate).
  apply lookup_insert_eq.
Qed.

Lemma pre_context_version_id (metadata : DeployMetadata) :
  preTemplateContext metadata !! u "version_id" = Some None.
Proof. unfold preTemplateContext. apply lookup_insert_eq. Qed.

(** The context of a run has no property named [constructor] of its own. *)
Lemma pre_context_constructor (metadata : DeployMetadata) :
  preTemplateContext metadata !! u "constructor" = None.
Proof.
  unfold preTemplateContext.
  repeat (rewrite lookup_insert_ne by (vm_compute; discriminate)).
  apply lookup_empty.
Qed.

(** Where no placeholder names a property of [Object.prototype], the
    callback gives the context's own values. *)
Lemma render_own (template : jsstring) (context : TemplateContext) :
  (forall key, names_key template key -> object_prototype !! key = None) ->
  renders context template (renderTemplate template context).
Proof.
  intros Hnames. apply renders_own. unfold renderTemplate.
  rewrite (replace_agree (lookup_value context) (own_value context)).
  - apply renders_with_replace. reflexivity.
  - intros key Hkey. apply lookup_own, Hnames, Hkey.
Qed.

Lemma renders_deterministic (context : TemplateContext) (s out out' : jsstring) :
  renders context s out -> renders context s out' -> out = out'.
Proof.
  intros H H'. apply renders_own in H, H'.
  eapply renders_with_deterministic; eassumption.
Qed.

(** C1: [renderTemplate] does not always render a name that is absent from
    the context as the empty string: the callback reads [context[key]],
    which also finds what the context inherits from [Object.prototype], so
    [{{constructor}}] renders, in the context of a run, to the text of the
    built-in function, where the specification (and the comment of the
    function) has the empty string; likewise [toString] and [__proto__].
    For every template that has no placeholder for a name of
    [Object.prototype] the function returns the rendering of the
    specification: every placeholder, leftmost first, replaced by the value
    the context has for its name, or by the empty string when the name is
    absent or its value undefined (as [deployment_url] and [version_id] are
    before upload), and all other text copied; a template in which no
    placeholder begins renders to itself, whatever the context. *)
Theorem renderTemplate_inherited_name :
  (forall metadata : DeployMetadata,
     renders (preTemplateContext metadata) (u "{{constructor}}") [] /\
     renderTemplate (u "{{constructor}}") (preTemplateContext metadata)
     = u "function Object() { [native code] }") /\
  renderTemplate (u "{{toString}}") ∅
  = u "function toString() { [native code] }" /\
  renderTemplate (u "{{ __proto__ }}") ∅ = u "[object Object]" /\
  (forall (template : jsstring) (context : TemplateContext) (out : jsstring),
     (forall key, names_key template key -> object_prototype !! key = None) ->
     renderTemplate template context = out <-> renders context template out) /\
  (forall (template : jsstring) (context : TemplateContext),
     placeholder_free template -> renderTemplate template context = template) /\
  (forall metadata : DeployMetadata,
     renderTemplate (u "{{deployment_url}}") (preTemplateContext metadata) = [] /\
     renderTemplate (u "v{{ version_id }}.") (preTemplateContext metadata)
     = u "v.") /\
  renderTemplate (u "{{x}}") ∅ = [] /\
  renderTemplate (u "{{x}}") (<[u "x" := Some (u "a")]> ∅) = u "a" /\
  renderTemplate (u "{{ x }}-{{y}}") (<[u "x" := Some (u "a")]> ∅) = u "a-" /\
  (forall context : TemplateContext,
     renderTemplate (u "no vars") context = u "no vars").
Proof.
  assert (Hp : placeholder_at (u "{{constructor}}") (u "constructor") []).
  { apply match_placeholder_spec. vm_compute. reflexivity. }
  split; [| split; [| split; [| split; [| split; [| split; [| split;
    [| split; [| split]]]]]]]].
  - intros metadata. split.
    + eapply renders_absent;
        [exact Hp | apply pre_context_constructor | constructor].
    + rewrite (render_placeholder _ _ _ _ Hp).
      rewrite (lookup_inherited _ _ (native_function "Object")
                 (pre_context_constructor metadata)) by reflexivity.
      reflexivity.
  - vm_compute. reflexivity.
  - vm_compute. reflexivity.
  - intros template context out Hnames. split.
    + intros <-. apply render_own, Hnames.
    + intros H. eapply renders_deterministic; [| exact H].
      apply render_own, Hnames.
  - intros template context Hfree.
    apply render_characterised, renders_with_free, Hfree.
  - intros metadata. split.
    + unfold renderTemplate. simpl. unfold lookup_value.
      rewrite pre_context_deployment_url. reflexivity.
    + unfold renderTemplate. simpl. unfold lookup_value.
      rewrite pre_context_version_id. reflexivity.
  - vm_compute. reflexivity.
  - vm_compute. reflexivity.
  - vm_compute. reflexivity.
  - intros context. reflexivity.
Qed.

End RendererClaims.

(** ** The version id extractor *)

Section ExtractorProofs.
Import Extractor ExtractorSpec.

Lemma hex_not_space (c : N) : is_hex_or_hyphen c = true -> is_space c = false.
Proof.
  unfold is_hex_or_hyphen, is_space. intros H.
  repeat (rewrite ?orb_true_iff, ?andb_true_iff, ?N.eqb_eq, ?N.leb_le in H).
  repeat (rewrite ?orb_false_iff, ?andb_false_iff, ?N.eqb_neq, ?N.leb_gt).
  lia.
Qed.

Lemma match_version_id_spec (s id : jsstring) :
  match_version_id s = Some id <-> version_id_at s id.
Proof.
  unfold match_version_id, version_id_at. split.
  - destruct (strip_prefix VERSION_LABEL s) as [s1 |] eqn:E0; [| discriminate].
    apply strip_prefix_spec in E0.
    destruct (span is_space s1) as [ws s2] eqn:E1.
    destruct (span is_hex_or_hyphen s2) as [i rest] eqn:E2.
    destruct (truthy i) eqn:Ei; [| discriminate].
    intros H. inversion H; subst i. clear H.
    apply span_spec in E1 as [H1 [W1 _]].
    apply span_spec in E2 as [H2 [W2 Hstop]].
    exists ws, rest. subst s s1 s2.
    repeat split; try assumption. apply truthy_true, Ei.
  - intros [ws [rest [-> [W [Hid [Wid Hstop]]]]]].
    rewrite strip_prefix_app.
    destruct id as [| i0 id]; [congruence |].
    pose proof Wid as Wid'. simpl in Wid'. apply andb_prop in Wid' as [Hi0 _].
    rewrite (span_unique is_space ws _ W);
      [| simpl; apply hex_not_space, Hi0].
    rewrite (span_unique is_hex_or_hyphen (i0 :: id) _ Wid Hstop).
    reflexivity.
Qed.

Lemma parse_nil : parseVersionIdFromUpload [] = None.
Proof. reflexivity. Qed.

Lemma parse_cons (c : N) (output : jsstring) :
  parseVersionIdFromUpload (c :: output)
  = match match_version_id (c :: output) with
    | Some id => Some id
    | None => parseVersionIdFromUpload output
    end.
Proof. reflexivity. Qed.

Lemma no_version_id_at_end (id : jsstring) : ~ version_id_at [] id.
Proof. intros H. apply match_version_id_spec in H. discriminate H. Qed.

Lemma parse_some (output id : jsstring) :
  parseVersionIdFromUpload output = Some id <-> first_version_id output id.
Proof.
  unfold first_version_id. split.
  - induction output as [| c output IH].
    + rewrite parse_nil. discriminate.
    + rewrite parse_cons.
      destruct (match_version_id (c :: output)) as [i |] eqn:E.
      * intros H. inversion H; subst i.
        exists [], (c :: output). split; [reflexivity |].
        split; [apply match_version_id_spec, E |].
        intros ? ? ? _ Hlt. simpl in Hlt. lia.
      * intros H. destruct (IH H) as [before [rest [-> [Hat Hfirst]]]].
        exists (c :: before), rest. split; [reflexivity |].
        split; [exact Hat |].
        intros before' rest' id' Heq Hlt Hat'.
        destruct before' as [| c' before'].
        -- simpl in Heq. subst rest'.
           apply match_version_id_spec in Hat'. congruence.
        -- simpl in Heq. inversion Heq; subst c'.
           apply (Hfirst before' rest' id'); [assumption | simpl in Hlt; lia
                                             | exact Hat'].
  - intros [before [rest [-> [Hat Hfirst]]]].
    induction before as [| c before IH].
    + destruct rest as [| c rest]; [destruct (no_version_id_at_end _ Hat) |].
      apply match_version_id_spec in Hat.
      simpl app. rewrite parse_cons, Hat. reflexivity.
    + simpl app. rewrite parse_cons.
      destruct (match_version_id (c :: before ++ rest)) as [i |] eqn:E.
      * exfalso. apply match_version_id_spec in E.
        apply (Hfirst [] (c :: before ++ rest) i);
          [reflexivity | simpl; lia | exact E].
      * apply IH. intros before' rest' id' Heq Hlt.
        apply (Hfirst (c :: before') rest' id');
          [simpl; rewrite Heq; reflexivity | simpl; lia].
Qed.

Lemma parse_none (output : jsstring) :
  parseVersionIdFromUpload output = None <-> no_version_id output.
Proof.
  unfold no_version_id. split.
  - induction output as [| c output IH].
    + intros _ before rest id Heq Hat.
      symmetry in Heq. apply app_eq_nil in Heq as [_ ->].
      exact (no_version_id_at_end _ Hat).
    + rewrite parse_cons.
      destruct (match_version_id (c :: output)) as [i |] eqn:E;
        [discriminate |].
      intros H before rest id Heq Hat.
      destruct before as [| c' before].
      * simpl in Heq. subst rest. apply match_version_id_spec in Hat.
        congruence.
      * simpl in Heq. inversion Heq; subst.
        exact (IH H before rest id eq_refl Hat).
  - intros Hno. induction output as [| c output IH]; [reflexivity |].
    rewrite parse_cons.
    destruct (match_version_id (c :: output)) as [i |] eqn:E.
    + exfalso. apply match_version_id_spec in E.
      exact (Hno [] (c :: output) i eq_refl E).
    + apply IH. intros before rest id -> Hat.
      exact (Hno (c :: before) rest id eq_refl Hat).
Qed.

(** C3: [parseVersionIdFromUpload] returns the first identifier of
    hexadecimal digits and hyphens that follows the label
    [Worker Version ID:] (white space allowed between them), and nothing
    when the output has none. *)
Theorem parseVersionIdFromUpload_contract :
  (forall output id : jsstring,
     parseVersionIdFromUpload output = Some id <-> first_version_id output id) /\
  (forall output : jsstring,
     parseVersionIdFromUpload output = None <-> no_version_id output) /\
  parseVersionIdFromUpload (u "... Worker Version ID: abc123-def ...")
  = Some (u "abc123-def") /\
  parseVersionIdFromUpload (u "no id here") = None /\
  parseVersionIdFromUpload (u "worker version id: abc123-def") = None.
Proof.
  split; [exact parse_some |]. split; [exact parse_none |].
  repeat split; reflexivity.
Qed.

End ExtractorProofs.

(** ** The default message *)

Lemma js_or_truthy (a : option jsstring) (b : jsstring) :
  js_or a b = match if_truthy a with Some s => s | None => b end.
Proof. destruct a as [[| c s] |]; reflexivity. Qed.

Lemma length_take_le (n : nat) (s : jsstring) : (length (take n s) <= n)%nat.
Proof. rewrite length_take. lia. Qed.

(** C4: without a message template the message is [branch@shortSha] (the
    one that is available alone, without the separator, when the other is
    missing), then a colon, a space and the short, else the full, commit
    message; with neither branch nor sha it is the commit message alone; in
    each case cut to its first 100 code units. *)
Theorem buildDefaultMessage_contract :
  (forall meta : DeployMetadata,
     let b := js_or (branch meta) [] in
     let s := js_or (short_sha meta)
                (match if_truthy (sha meta) with
                 | Some full => take 6 full
                 | None => []
                 end) in
     let msg := js_or (short_commit_message meta)
                  (js_or (commit_message meta) []) in
     buildDefaultMessage meta
     = take 100 (match b, s with
                 | _ :: _, _ :: _ => b ++ u "@" ++ s ++ u ": " ++ msg
                 | _ :: _, [] => b ++ u ": " ++ msg
                 | [], _ :: _ => s ++ u ": " ++ msg
                 | [], [] => msg
                 end)) /\
  (forall meta : DeployMetadata, (length (buildDefaultMessage meta) <= 100)%nat) /\
  (forall meta : DeployMetadata,
     if_truthy (branch meta) = None ->
     if_truthy (short_sha meta) = None ->
     if_truthy (sha meta) = None ->
     let msg := js_or (short_commit_message meta)
                  (js_or (commit_message meta) []) in
     buildDefaultMessage meta = take 100 msg /\
     ((length msg <= 100)%nat -> buildDefaultMessage meta = msg)) /\
  buildDefaultMessage
    {| owner := None; repo := None; ref := None; branch := Some (u "main");
       sha := None; short_sha := Some (u "a1b2c3"); actor := None;
       run_id := None; run_number := None; commit_message := None;
       short_commit_message := Some (u "fix bug") |}
  = u "main@a1b2c3: fix bug" /\
  buildDefaultMessage
    {| owner := None; repo := None; ref := None; branch := None;
       sha := None; short_sha := None; actor := None;
       run_id := None; run_number := None;
       commit_message := Some (u "fix bug" ++ [LF] ++ u "details");
       short_commit_message := Some (u "fix bug") |}
  = u "fix bug".
Proof.
  split; [| split; [| split; [| split; reflexivity]]].
  - intros meta. cbv zeta. unfold buildDefaultMessage.
    destruct (js_or (branch meta) []) as [| b0 b];
      destruct (js_or (short_sha meta) _) as [| s0 s]; simpl;
      rewrite ?app_nil_r; try reflexivity.
    f_equal. f_equal. rewrite <- !app_assoc. reflexivity.
  - intros meta. unfold buildDefaultMessage. apply length_take_le.
  - intros meta Hb Hs Hf. cbv zeta. unfold buildDefaultMessage.
    rewrite (js_or_truthy (branch meta)), (js_or_truthy (short_sha meta)).
    rewrite Hb, Hs, Hf. simpl. split; [reflexivity |].
    intros Hlen. apply firstn_all2, Hlen.
Qed.

(** ** The metadata collectors *)

Section MetadataProofs.
Import MetadataSpec RunSpec.

Lemma split_first (sep : N) (s : jsstring) :
  split sep s !! 0%nat = Some (before_first sep s) /\
  split sep s !! 1%nat = before_first sep <$> after_first sep s.
Proof.
  induction s as [| c s [IH0 IH1]]; simpl; [split; reflexivity |].
  destruct (c =? sep).
  - split; [reflexivity |]. simpl. exact IH0.
  - destruct (split sep s) as [| piece pieces]; [discriminate IH0 |].
    simpl in *. inversion IH0; subst. split; [reflexivity | exact IH1].
Qed.

Lemma silent_listener (cs : list Chunk) :
  flat_map (fun _ : Chunk => @nil Event) cs = [].
Proof. induction cs; simpl; auto. Qed.

Lemma length_truthy (s : jsstring) :
  (if (0 <? length s)%nat then Some s else None) = if_truthy (Some s).
Proof. destruct s; reflexivity. Qed.

Lemma getLastCommitMessage_eq (w : World) :
  getLastCommitMessage w
  = ([Exec (u "git") [u "log"; u "-1"; u "--pretty=%B"] git_options],
     inl (last_commit_message w)).
Proof.
  unfold getLastCommitMessage, last_commit_message, git_result, exec,
    try_catch, mbind, act_bind, mret, act_ret.
  rewrite silent_listener.
  destruct (outcome _); rewrite ?length_truthy, ?app_nil_r; reflexivity.
Qed.

Lemma MetadataTs_getLastCommitMessage_value (w : World) :
  snd (MetadataTs.getLastCommitMessage w) = inl (last_commit_message w).
Proof.
  unfold MetadataTs.getLastCommitMessage, last_commit_message, git_result,
    exec, try_catch, mbind, act_bind, mret, act_ret, debug, emit.
  rewrite silent_listener.
  destruct (outcome _); rewrite ?length_truthy; reflexivity.
Qed.

(** The metadata of [src/index.ts], field by field. *)
Lemma collectMetadata_fields (w : World) :
  exists md,
    collectMetadata w
    = ([Exec (u "git") [u "log"; u "-1"; u "--pretty=%B"] git_options],
       inl md) /\
    (owner md, repo md)
    = match if_truthy (env w (u "GITHUB_REPOSITORY")) with
      | Some v => (Some (before_first SLASH v),
                   before_first SLASH <$> after_first SLASH v)
      | None => (None, None)
      end /\
    commit_message md = last_commit_message w /\
    short_commit_message md
    = match if_truthy (last_commit_message w) with
      | Some m => Some (before_first LF m)
      | None => None
      end.
Proof.
  unfold collectMetadata. rewrite getLastCommitMessage_eq.
  destruct (if_truthy (env w (u "GITHUB_REPOSITORY"))) as [v |] eqn:Ev.
  - eexists. split; [reflexivity |]. cbn [owner repo commit_message
                                           short_commit_message].
    destruct (split_first SLASH v) as [-> ->].
    split; [reflexivity |]. split; [reflexivity |].
    destruct (if_truthy (last_commit_message w)) as [m |]; [| reflexivity].
    apply (split_first LF m).
  - eexists. split; [reflexivity |]. cbn [owner repo commit_message
                                           short_commit_message].
    split; [reflexivity |]. split; [reflexivity |].
    destruct (if_truthy (last_commit_message w)) as [m |]; [| reflexivity].
    apply (split_first LF m).
Qed.

(** The metadata of [src/metadata.ts], field by field. *)
Lemma collectDeployMetadata_fields (w : World) :
  exists t md,
    MetadataTs.collectDeployMetadata w = (t, inl md) /\
    (owner md, repo md)
    = match if_truthy (env w (u "GITHUB_REPOSITORY")) with
      | Some v => (Some (before_first SLASH v),
                   before_first SLASH <$> after_first SLASH v)
      | None => (None, None)
      end /\
    commit_message md = last_commit_message w /\
    short_commit_message md
    = match if_truthy (last_commit_message w) with
      | Some m => Some (trim (before_first LF m))
      | None => None
      end.
Proof.
  unfold MetadataTs.collectDeployMetadata.
  pose proof (MetadataTs_getLastCommitMessage_value w) as Hv.
  destruct (MetadataTs.getLastCommitMessage w) as [t0 r]. simpl in Hv.
  subst r. unfold MetadataTs.debugMetadata, debug, emit.
  destruct (if_truthy (env w (u "GITHUB_REPOSITORY"))) as [v |] eqn:Ev.
  - eexists _, _. split; [reflexivity |]. cbn [owner repo commit_message
                                           short_commit_message].
    destruct (split_first SLASH v) as [-> ->].
    split; [reflexivity |]. split; [reflexivity |].
    destruct (if_truthy (last_commit_message w)) as [m |]; [| reflexivity].
    destruct (split_first LF m) as [-> _]. reflexivity.
  - eexists _, _. split; [reflexivity |]. cbn [owner repo commit_message
                                           short_commit_message].
    split; [reflexivity |]. split; [reflexivity |].
    destruct (if_truthy (last_commit_message w)) as [m |]; [| reflexivity].
    destruct (split_first LF m) as [-> _]. reflexivity.
Qed.

End MetadataProofs.

(** ** The orchestrator *)

Section RunProofs.
Import Trace RunSpec.

Lemma execs_app (t1 t2 : list Event) : execs (t1 ++ t2) = execs t1 ++ execs t2.
Proof. apply flat_map_app. Qed.

Lemma outputs_app (t1 t2 : list Event) :
  outputs (t1 ++ t2) = outputs t1 ++ outputs t2.
Proof. apply flat_map_app. Qed.

Lemma failures_app (t1 t2 : list Event) :
  failures (t1 ++ t2) = failures t1 ++ failures t2.
Proof. apply flat_map_app. Qed.

Lemma execs_cons (e : Event) (t : list Event) :
  execs (e :: t)
  = match e with Exec c a o => [(c, a, o)] | _ => [] end ++ execs t.
Proof. reflexivity. Qed.

Lemma outputs_cons (e : Event) (t : list Event) :
  outputs (e :: t)
  = match e with SetOutput n v => [(n, v)] | _ => [] end ++ outputs t.
Proof. reflexivity. Qed.

Lemma failures_cons (e : Event) (t : list Event) :
  failures (e :: t)
  = match e with SetFailed m => [m] | _ => [] end ++ failures t.
Proof. reflexivity. Qed.

(** Streaming the output of a process to the log invokes nothing, publishes
    nothing and signals no failure. *)
Lemma stream_silent (cs : list Chunk) :
  execs (flat_map stream_to_log cs) = [] /\
  outputs (flat_map stream_to_log cs) = [] /\
  failures (flat_map stream_to_log cs) = [].
Proof.
  induction cs as [| c cs [IH1 [IH2 IH3]]]; [repeat split |].
  simpl flat_map. rewrite execs_app, outputs_app, failures_app, IH1, IH2, IH3.
  destruct c; repeat split.
Qed.

Lemma execs_stream (cs : list Chunk) : execs (flat_map stream_to_log cs) = [].
Proof. apply stream_silent. Qed.

Lemma outputs_stream (cs : list Chunk) :
  outputs (flat_map stream_to_log cs) = [].
Proof. apply stream_silent. Qed.

Lemma failures_stream (cs : list Chunk) :
  failures (flat_map stream_to_log cs) = [].
Proof. apply stream_silent. Qed.

Ltac plumb :=
  cbn [mbind mret act_bind act_ret throw try_catch emit info setFailed
       setOutput when exec fst snd andb negb].

Ltac project :=
  repeat (rewrite ?execs_app, ?outputs_app, ?failures_app,
                  ?execs_cons, ?outputs_cons, ?failures_cons,
                  ?execs_stream, ?outputs_stream, ?failures_stream);
  cbn [app execs outputs failures flat_map].

Ltac not_published Hin :=
  cbn [In] in Hin;
  repeat (destruct Hin as [Hin | Hin];
          [apply (f_equal fst) in Hin; vm_compute in Hin; discriminate Hin |]);
  destruct Hin.

(** The course of a run. Either an input is missing and the run fails before
    it invokes anything, or it looks up the commit message and invokes the
    upload operation with the config path, and what follows depends on how
    that ends. *)
Lemma run_shape (w : World) :
  exists R, run w = (R, inl tt) /\
  ((exists msg, R = [SetFailed msg]) \/
   (truthy (inputs w (u "config")) = true /\
    exists cmd more opts,
      course_after_upload w cmd
        ([u "versions"; u "upload"; u "--config"; config_path w] ++ more)
        opts R)).
Proof.
  unfold run, getInput. plumb.
  destruct (truthy (inputs w (u "api_token"))) eqn:Etok; plumb;
    [| eexists; split; [reflexivity | left; eexists; reflexivity]].
  destruct (truthy (inputs w (u "wrangler_command"))) eqn:Ecmd; plumb;
    [| eexists; split; [reflexivity | left; eexists; reflexivity]].
  destruct (truthy (inputs w (u "config"))) eqn:Ecfg; plumb;
    [| eexists; split; [reflexivity | left; eexists; reflexivity]].
  destruct (truthy (trim (inputs w (u "api_token")))) eqn:Etok'; plumb;
    [| eexists; split; [reflexivity | left; eexists; reflexivity]].
  destruct (collectMetadata_fields w) as [md [Hmd _]]. rewrite Hmd. plumb.
  fold (only_upload w). fold (config_path w).
  set (tag := if truthy (trim (inputs w (u "tag_template"))) then _ else _).
  set (msg := if truthy (trim (inputs w (u "message_template"))) then _ else _).
  set (wd := if (0 <? length _)%nat then _ else _).
  set (cmd := trim (trim (inputs w (u "wrangler_command")))).
  set (opts := wrangler_options _ wd).
  set (more := Tokenizer.splitArgs (trim (inputs w (u "upload_args"))) ++ _).
  set (dmore := Tokenizer.splitArgs (trim (inputs w (u "deploy_args"))) ++ _).
  set (up := exec_oracle w cmd _ opts).
  destruct (truthy tag) eqn:Etag; plumb;
  (destruct (outcome up) as [code | m] eqn:Eup; plumb;
   [ destruct (code =? 0)%Z eqn:Ecode; plumb;
     [ destruct (if_truthy (Extractor.parseVersionIdFromUpload
                              (stdout_text (chunks up)))) as [id |] eqn:Evid;
       destruct (only_upload w) eqn:Eonly; plumb
     | ]
   | ]).
  (* upload rejected, or exited with a non-zero code; parse failure in full
     mode *)
  all: try (eexists; (split; [reflexivity |]); right;
            (split; [reflexivity |]); exists cmd, more, opts;
            unfold course_after_upload; cbv zeta; fold up;
            rewrite Eup, ?Ecode, ?Evid, ?Eonly;
            repeat split; project; reflexivity).
  (* upload-only mode *)
  all: try (destruct (truthy msg) eqn:Emsg; plumb;
            eexists; (split; [reflexivity |]); right;
            (split; [reflexivity |]); exists cmd, more, opts;
            unfold course_after_upload; cbv zeta; fold up;
            rewrite Eup, Ecode, Evid, Eonly;
            repeat split; project; try reflexivity;
            try (left; reflexivity);
            try (intros v Hin; not_published Hin)).
  (* full mode with a version id: the deploy invocation *)
  all: set (dep := exec_oracle w cmd _ opts);
       destruct (outcome dep) as [dcode | dm] eqn:Edep; plumb;
       [ destruct (dcode =? 0)%Z eqn:Edcode; plumb;
         [ destruct (if_truthy (Extractor.parseWranglerOutput
                                  (stdout_text (chunks dep)))) eqn:Eurl;
           destruct (truthy msg) eqn:Emsg; plumb
         | ]
       | ];
       eexists; (split; [reflexivity |]); right;
       (split; [reflexivity |]); exists cmd, more, opts;
       unfold course_after_upload; cbv zeta; fold up;
       rewrite Eup, Ecode, Evid, Eonly; exists dmore;
       project; reflexivity.
Qed.

Lemma git_not_wrangler :
  is_upload (snd (fst git_call)) = false /\
  is_deploy (snd (fst git_call)) = false.
Proof. split; reflexivity. Qed.

(** The upload invocation of a run: there is one, made with the config path,
    and the rest of the run follows from how it ends. *)
Lemma run_upload_call (w : World) (cmd : jsstring) (args : list jsstring)
    (opts : ExecOptions) :
  In (cmd, args, opts) (execs (fst (run w))) ->
  is_upload args = true ->
  exists R more,
    run w = (R, inl tt) /\
    truthy (inputs w (u "config")) = true /\
    args = [u "versions"; u "upload"; u "--config"; config_path w] ++ more /\
    course_after_upload w cmd args opts R.
Proof.
  intros Hin Hup.
  destruct (run_shape w) as [R [HR [[msg ->] | [Hcfg [c [more [o Hc]]]]]]];
    rewrite HR in Hin; cbn [fst] in Hin; [destruct Hin |].
  assert (Hcall : (cmd, args, opts)
                  = (c, [u "versions"; u "upload"; u "--config";
                         config_path w] ++ more, o)).
  { pose proof Hc as Hc'. unfold course_after_upload in Hc'. cbv zeta in Hc'.
    assert (Hgit : (cmd, args, opts) <> git_call).
    { intros E. pose proof git_not_wrangler as [Hg _].
      rewrite <- E in Hg. cbn [fst snd] in Hg. congruence. }
    destruct (outcome _) as [code | m].
    - destruct (code =? 0)%Z.
      + destruct (if_truthy _) as [id |].
        * destruct (only_upload w).
          -- destruct Hc' as [He _]. rewrite He in Hin.
             destruct Hin as [E | [E | []]]; [congruence | auto].
          -- destruct Hc' as [dmore He]. rewrite He in Hin.
             destruct Hin as [E | [E | [E | []]]]; [congruence | auto |].
             inversion E; subst. discriminate Hup.
        * destruct Hc' as [He _]. rewrite He in Hin.
          destruct Hin as [E | [E | []]]; [congruence | auto].
      + destruct Hc' as [He _]. rewrite He in Hin.
        destruct Hin as [E | [E | []]]; [congruence | auto].
    - destruct Hc' as [He _]. rewrite He in Hin.
      destruct Hin as [E | [E | []]]; [congruence | auto]. }
  inversion Hcall; subst cmd args opts.
  exists R, more. repeat split; assumption.
Qed.

(** The deploy invocation of a run is made with the config path. *)
Lemma run_deploy_call (w : World) (cmd : jsstring) (args : list jsstring)
    (opts : ExecOptions) :
  In (cmd, args, opts) (execs (fst (run w))) ->
  is_deploy args = true ->
  truthy (inputs w (u "config")) = true /\
  exists id dmore,
    args = [u "versions"; u "deploy"; id; u "-y"; u "--config"; config_path w]
           ++ dmore.
Proof.
  intros Hin Hdep.
  destruct (run_shape w) as [R [HR [[msg ->] | [Hcfg [c [more [o Hc]]]]]]];
    rewrite HR in Hin; cbn [fst] in Hin; [destruct Hin |].
  split; [exact Hcfg |].
  unfold course_after_upload in Hc. cbv zeta in Hc.
  assert (Hgit : (cmd, args, opts) <> git_call).
  { intros E. pose proof git_not_wrangler as [_ Hg].
    rewrite <- E in Hg. cbn [fst snd] in Hg. congruence. }
  assert (Hnot : (cmd, args, opts)
                 <> (c, [u "versions"; u "upload"; u "--config";
                         config_path w] ++ more, o)).
  { intros E. inversion E; subst. discriminate Hdep. }
  destruct (outcome _) as [code | m].
  - destruct (code =? 0)%Z.
    + destruct (if_truthy _) as [id |].
      * destruct (only_upload w).
        -- destruct Hc as [He _]. rewrite He in Hin.
           destruct Hin as [E | [E | []]]; congruence.
        -- destruct Hc as [dmore He]. rewrite He in Hin.
           destruct Hin as [E | [E | [E | []]]]; [congruence | congruence |].
           inversion E; subst. exists id, dmore. reflexivity.
      * destruct Hc as [He _]. rewrite He in Hin.
        destruct Hin as [E | [E | []]]; congruence.
    + destruct Hc as [He _]. rewrite He in Hin.
      destruct Hin as [E | [E | []]]; congruence.
  - destruct Hc as [He _]. rewrite He in Hin.
    destruct Hin as [E | [E | []]]; congruence.
Qed.

End RunProofs.

Section RunClaims.
Import Trace RunSpec Samples.

(** C5: when the upload invocation exits 0 and its output holds no version
    id, the run signals a fatal failure exactly when upload-only mode is
    off; in upload-only mode it ends without failure and without publishing
    [version_id]; in both modes no deploy invocation is made. *)
Theorem version_id_miss_policy (w : World) (cmd : jsstring)
    (args : list jsstring) (opts : ExecOptions) :
  In (cmd, args, opts) (execs (fst (run w))) ->
  is_upload args = true ->
  outcome (exec_oracle w cmd args opts) = Exited 0 ->
  Extractor.parseVersionIdFromUpload
    (stdout_text (chunks (exec_oracle w cmd args opts))) = None ->
  snd (run w) = inl tt /\
  (failures (fst (run w)) <> [] <-> only_upload w = false) /\
  (only_upload w = true ->
     failures (fst (run w)) = [] /\
     forall v, ~ In (u "version_id", v) (outputs (fst (run w)))) /\
  (only_upload w = false ->
     failures (fst (run w))
     = [u "Failed to parse Worker Version ID from wrangler versions upload output."] /\
     outputs (fst (run w)) = []) /\
  Forall (fun call => is_deploy (snd (fst call)) = false)
         (execs (fst (run w))).
Proof.
  intros Hin Hup Hexit Hparse.
  destruct (run_upload_call w cmd args opts Hin Hup)
    as [R [more [HR [_ [Hargs Hc]]]]].
  unfold course_after_upload in Hc. cbv zeta in Hc.
  rewrite Hexit, Hparse in Hc. cbn [Z.eqb if_truthy] in Hc.
  destruct Hc as [He Hmode]. rewrite HR. cbn [fst snd].
  split; [reflexivity |].
  assert (Hnodeploy : Forall (fun call => is_deploy (snd (fst call)) = false)
                             (execs R)).
  { rewrite He. constructor; [reflexivity |].
    constructor; [| constructor]. rewrite Hargs. reflexivity. }
  destruct (only_upload w); destruct Hmode as [Hf Ho]; rewrite Hf.
  - split; [split; [congruence | discriminate] |].
    split; [intros _; split; [reflexivity | exact Ho] |].
    split; [discriminate | exact Hnodeploy].
  - split; [split; [reflexivity | discriminate] |].
    split; [discriminate |].
    split; [intros _; split; [reflexivity | exact Ho] | exact Hnodeploy].
Qed.

(** C6: when the upload invocation ends with a non-zero exit code, the run
    signals one fatal failure whose message holds that code, invokes
    nothing after the upload (no deploy, no second upload) and publishes no
    output; the same holds, with the message of the error, when the
    invocation is rejected. *)
Theorem upload_failure_atomic (w : World) (cmd : jsstring)
    (args : list jsstring) (opts : ExecOptions) :
  In (cmd, args, opts) (execs (fst (run w))) ->
  is_upload args = true ->
  (forall code : Z,
     outcome (exec_oracle w cmd args opts) = Exited code ->
     code <> 0%Z ->
     snd (run w) = inl tt /\
     (exists message,
        failures (fst (run w)) = [message] /\
        message = u "wrangler versions upload failed with exit code "
                  ++ number_to_string code
                  ++ u ". See logs above for details." /\
        contains message (number_to_string code)) /\
     execs (fst (run w)) = [git_call; (cmd, args, opts)] /\
     outputs (fst (run w)) = []) /\
  (forall message : jsstring,
     outcome (exec_oracle w cmd args opts) = Rejected message ->
     snd (run w) = inl tt /\
     failures (fst (run w)) = [error_text message] /\
     execs (fst (run w)) = [git_call; (cmd, args, opts)] /\
     outputs (fst (run w)) = []).
Proof.
  intros Hin Hup.
  destruct (run_upload_call w cmd args opts Hin Hup)
    as [R [more [HR [_ [Hargs Hc]]]]].
  unfold course_after_upload in Hc. cbv zeta in Hc.
  rewrite HR. cbn [fst snd]. split.
  - intros code Hexit Hcode. rewrite Hexit in Hc.
    apply Z.eqb_neq in Hcode. rewrite Hcode in Hc.
    destruct Hc as [He [Ho Hf]].
    split; [reflexivity |]. split; [| split; assumption].
    eexists. split; [exact Hf |]. split; [reflexivity |].
    eexists _, _. reflexivity.
  - intros message Hexit. rewrite Hexit in Hc.
    destruct Hc as [He [Ho Hf]]. repeat split; assumption.
Qed.

(** C7, as stated, fails: a run in which the input [config] is not set does
    not proceed; it signals a fatal failure before it invokes anything. *)
Lemma config_unset_run_fails :
  inputs world_no_config (u "config") = [] /\
  run world_no_config
  = ([SetFailed (u "Input required and not supplied: config")], inl tt) /\
  execs (fst (run world_no_config)) = [].
Proof. vm_compute. repeat split. Qed.

(** C7, amended: the config path input is required. A run in which it is
    not set signals a fatal failure and invokes nothing; whenever a run
    makes its upload or its deploy invocation, the input is set and its
    value is passed to that invocation as [--config <path>]. *)
Theorem config_path_required (w : World) :
  (inputs w (u "config") = [] ->
     exists message, run w = ([SetFailed message], inl tt)) /\
  (inputs w (u "api_token") <> [] ->
   inputs w (u "wrangler_command") <> [] ->
   inputs w (u "config") = [] ->
     run w = ([SetFailed (u "Input required and not supplied: config")],
              inl tt)) /\
  (forall cmd args opts,
     In (cmd, args, opts) (execs (fst (run w))) ->
     is_upload args = true ->
     inputs w (u "config") <> [] /\
     exists more,
       args = [u "versions"; u "upload"; u "--config"; config_path w]
              ++ more) /\
  (forall cmd args opts,
     In (cmd, args, opts) (execs (fst (run w))) ->
     is_deploy args = true ->
     inputs w (u "config") <> [] /\
     exists id more,
       args = [u "versions"; u "deploy"; id; u "-y"; u "--config";
               config_path w] ++ more) /\
  execs (fst (run world_success))
  = [git_call;
     (u "npx wrangler",
      [u "versions"; u "upload"; u "--config"; u "wrangler.toml";
       u "--env"; u "production"; u "--message=main@a1b2c3d: fix bug"],
      wrangler_options (u "secret") None);
     (u "npx wrangler",
      [u "versions"; u "deploy"; u "abc123-def"; u "-y"; u "--config";
       u "wrangler.toml"; u "--message=main@a1b2c3d: fix bug"],
      wrangler_options (u "secret") None)].
Proof.
  split; [| split; [| split; [| split]]].
  - intros Hcfg.
    destruct (run_shape w) as [R [HR [[msg ->] | [Hc _]]]].
    + exists msg. exact HR.
    + rewrite Hcfg in Hc. discriminate Hc.
  - intros Htok Hcmd Hcfg. apply truthy_true in Htok, Hcmd.
    unfold run, getInput. rewrite Htok, Hcmd, Hcfg. reflexivity.
  - intros cmd args opts Hin Hup.
    destruct (run_upload_call w cmd args opts Hin Hup)
      as [R [more [_ [Hcfg [Hargs _]]]]].
    split; [apply truthy_true, Hcfg | exists more; exact Hargs].
  - intros cmd args opts Hin Hdep.
    destruct (run_deploy_call w cmd args opts Hin Hdep) as [Hcfg Hargs].
    split; [apply truthy_true, Hcfg | exact Hargs].
  - vm_compute. reflexivity.
Qed.

End RunClaims.

Section RunWitnesses.
Import Trace RunSpec Samples.

Lemma version_id_miss_policy_witness :
  (only_upload world_no_id_full = false /\
   failures (fst (run world_no_id_full))
   = [u "Failed to parse Worker Version ID from wrangler versions upload output."] /\
   outputs (fst (run world_no_id_full)) = []) /\
  (only_upload world_no_id_only_upload = true /\
   failures (fst (run world_no_id_only_upload)) = [] /\
   forall v, ~ In (u "version_id", v)
                  (outputs (fst (run world_no_id_only_upload)))).
Proof.
  split.
  - split; [reflexivity |].
    assert (Hin : In (u "npx wrangler",
                      [u "versions"; u "upload"; u "--config";
                       u "wrangler.toml"; u "--env"; u "production";
                       u "--message=main@a1b2c3d: fix bug"],
                      wrangler_options (u "secret") None)
                     (execs (fst (run world_no_id_full)))).
    { vm_compute. right. left. reflexivity. }
    destruct (version_id_miss_policy world_no_id_full _ _ _ Hin
                ltac:(vm_compute; reflexivity) ltac:(vm_compute; reflexivity)
                ltac:(vm_compute; reflexivity))
      as [_ [_ [_ [H _]]]].
    apply H. reflexivity.
  - split; [reflexivity |].
    assert (Hin : In (u "npx wrangler",
                      [u "versions"; u "upload"; u "--config";
                       u "wrangler.toml"; u "--env"; u "production";
                       u "--message=main@a1b2c3d: fix bug"],
                      wrangler_options (u "secret") None)
                     (execs (fst (run world_no_id_only_upload)))).
    { vm_compute. right. left. reflexivity. }
    destruct (version_id_miss_policy world_no_id_only_upload _ _ _ Hin
                ltac:(vm_compute; reflexivity) ltac:(vm_compute; reflexivity)
                ltac:(vm_compute; reflexivity))
      as [_ [_ [H _]]].
    apply H. reflexivity.
Defined.

Lemma upload_failure_atomic_witness :
  failures (fst (run world_upload_fails))
  = [u "wrangler versions upload failed with exit code 2. See logs above for details."] /\
  outputs (fst (run world_upload_fails)) = [].
Proof.
  assert (Hin : In (u "npx wrangler",
                    [u "versions"; u "upload"; u "--config"; u "wrangler.toml";
                     u "--env"; u "production";
                     u "--message=main@a1b2c3d: fix bug"],
                    wrangler_options (u "secret") None)
                   (execs (fst (run world_upload_fails)))).
  { vm_compute. right. left. reflexivity. }
  destruct (upload_failure_atomic world_upload_fails _ _ _ Hin
              ltac:(vm_compute; reflexivity)) as [H _].
  destruct (H 2%Z ltac:(vm_compute; reflexivity) ltac:(discriminate))
    as [_ [[message [Hf [Hm _]]] [_ Ho]]].
  split; [| exact Ho]. rewrite Hf, Hm. reflexivity.
Defined.

Lemma config_path_required_witness :
  exists more,
    [u "versions"; u "upload"; u "--config"; u "wrangler.toml";
     u "--env"; u "production"; u "--message=main@a1b2c3d: fix bug"]
    = [u "versions"; u "upload"; u "--config"; config_path world_success]
      ++ more.
Proof.
  destruct (config_path_required world_success) as [_ [_ [H _]]].
  refine (proj2 (H (u "npx wrangler") _ (wrangler_options (u "secret") None)
                   _ _)).
  - vm_compute. right. left. reflexivity.
  - reflexivity.
Defined.

(** End-to-end, full mode: upload prints a version id, deploy prints a URL;
    both are published with the message, and nothing fails. *)
Example run_success :
  outputs (fst (run world_success))
  = [(u "deployment_url", u "https://site.example/x");
     (u "version_id", u "abc123-def");
     (u "message", u "main@a1b2c3d: fix bug")] /\
  failures (fst (run world_success)) = [] /\
  snd (run world_success) = inl tt.
Proof. vm_compute. repeat split. Qed.

End RunWitnesses.

Section MetadataClaims.
Import Trace RunSpec Samples MetadataSpec.

(** C8, as stated, fails: with two slashes in the repository variable the
    repository name is not the entire remainder after the first slash. *)
Lemma repo_name_stops_at_second_slash :
  env world_two_slashes (u "GITHUB_REPOSITORY") = Some (u "a/b/c") /\
  after_first SLASH (u "a/b/c") = Some (u "b/c") /\
  exists t md,
    collectMetadata world_two_slashes = (t, inl md) /\
    owner md = Some (u "a") /\
    repo md = Some (u "b") /\
    repo md <> after_first SLASH (u "a/b/c").
Proof.
  split; [reflexivity |]. split; [reflexivity |].
  eexists _, _. split; [vm_compute; reflexivity |].
  split; [reflexivity |]. split; [reflexivity |].
  vm_compute. discriminate.
Qed.

(** C8, amended: both collectors split the repository variable at its
    slashes: the owner is the text before the first slash (the whole value
    when it has none) and the repository name is the text between the
    first slash and the second, or the end of the value when there is no
    second; the name is absent when the value has no slash, and both are
    absent when the variable is unset or empty. *)
Theorem repository_owner_and_name (w : World) :
  exists md t' md',
    collectMetadata w = ([Exec (u "git") [u "log"; u "-1"; u "--pretty=%B"]
                            git_options], inl md) /\
    MetadataTs.collectDeployMetadata w = (t', inl md') /\
    owner md' = owner md /\
    repo md' = repo md /\
    match if_truthy (env w (u "GITHUB_REPOSITORY")) with
    | Some v =>
        owner md = Some (before_first SLASH v) /\
        repo md = before_first SLASH <$> after_first SLASH v
    | None => owner md = None /\ repo md = None
    end.
Proof.
  destruct (collectMetadata_fields w) as [md [Hmd [Hor _]]].
  destruct (collectDeployMetadata_fields w) as [t' [md' [Hmd' [Hor' _]]]].
  exists md, t', md'. split; [exact Hmd |]. split; [exact Hmd' |].
  rewrite <- Hor in Hor'. injection Hor' as Ho Hr.
  split; [exact Ho |]. split; [exact Hr |].
  destruct (if_truthy _); injection Hor as H0 H1; split; assumption.
Qed.

(** What [before_first] and [after_first] are: the value is the first part,
    and, when it has a separator, that separator and the remainder; the
    first part holds no separator. *)
Lemma before_after_first (sep : N) (s : jsstring) :
  s = before_first sep s
      ++ match after_first sep s with Some r => sep :: r | None => [] end /\
  ~ In sep (before_first sep s) /\
  (after_first sep s = None <-> ~ In sep s).
Proof.
  induction s as [| c s [IH1 [IH2 IH3]]]; simpl.
  - intuition.
  - destruct (N.eqb_spec c sep) as [-> | Hne]; simpl.
    + intuition discriminate.
    + split; [f_equal; exact IH1 |]. intuition.
Qed.

(** The collector of [src/metadata.ts] trims: its short commit message is
    the first line of the commit message, trimmed, and is absent with it. *)
Lemma MetadataTs_short_commit_message_trimmed (w : World) :
  exists t md,
    MetadataTs.collectDeployMetadata w = (t, inl md) /\
    commit_message md = last_commit_message w /\
    short_commit_message md
    = match if_truthy (last_commit_message w) with
      | Some m => Some (trim (before_first LF m))
      | None => None
      end.
Proof.
  destruct (collectDeployMetadata_fields w) as [t [md [Hmd [_ [Hc Hs]]]]].
  exists t, md. repeat split; assumption.
Qed.

(** C9 fails of [src/index.ts]: its short commit message is the first line
    of the commit message as it stands; here the line ends with a space,
    which is kept. *)
Theorem collectMetadata_short_commit_message_untrimmed :
  last_commit_message world_trailing_space
  = Some (u "fix bug " ++ [LF; LF] ++ u "body") /\
  (exists t md,
     collectMetadata world_trailing_space = (t, inl md) /\
     short_commit_message md = Some (u "fix bug ") /\
     short_commit_message md
     <> Some (trim (before_first LF (u "fix bug " ++ [LF; LF] ++ u "body")))) /\
  (exists t md,
     MetadataTs.collectDeployMetadata world_trailing_space = (t, inl md) /\
     short_commit_message md = Some (u "fix bug")) /\
  (forall w : World,
     exists md,
       collectMetadata w
       = ([Exec (u "git") [u "log"; u "-1"; u "--pretty=%B"] git_options],
          inl md) /\
       commit_message md = last_commit_message w /\
       short_commit_message md
       = match if_truthy (last_commit_message w) with
         | Some m => Some (before_first LF m)
         | None => None
         end).
Proof.
  split; [vm_compute; reflexivity |]. split; [| split].
  - eexists _, _. split; [vm_compute; reflexivity |].
    split; [reflexivity |]. vm_compute. discriminate.
  - eexists _, _. split; [vm_compute; reflexivity |]. reflexivity.
  - intros w. destruct (collectMetadata_fields w) as [md [Hmd [_ [Hc Hs]]]].
    exists md. repeat split; assumption.
Qed.

End MetadataClaims.

(** ** Instances of the contracts *)

Section ContractWitnesses.
Import Tokenizer TokenizerSpec Renderer RendererSpec Extractor ExtractorSpec.
Import MoreSpec.

Lemma renderTemplate_inherited_name_witness :
  renders (<[u "x" := Some (u "a")]> ∅) (u "{{x}}") (u "a").
Proof.
  destruct renderTemplate_inherited_name as [_ [_ [_ [H _]]]].
  apply (H (u "{{x}}") (<[u "x" := Some (u "a")]> ∅) (u "a"));
    [| vm_compute; reflexivity].
  intros key [before [suffix [rest [Hs Hp]]]].
  apply match_placeholder_spec in Hp.
  destruct before as [| b0 [| b1 [| b2 [| b3 [| b4 [| b5 before]]]]]];
    vm_compute in Hs; inversion Hs; subst; vm_compute in Hp;
    try discriminate Hp.
  inversion Hp. reflexivity.
Defined.

Lemma splitArgs_contract_witness :
  splitArgs (text [Bare 97; Quoted SQUOTE (u "b c") true; Bare 100])
  = tokens [Bare 97; Quoted SQUOTE (u "b c") true; Bare 100] /\
  tokens [Bare 97; Quoted SQUOTE (u "b c") true; Bare 100] = [u "ab cd"].
Proof.
  destruct splitArgs_contract as [_ [H _]].
  split; [apply H | ]; reflexivity.
Defined.

Lemma parseVersionIdFromUpload_contract_witness :
  first_version_id (u "... Worker Version ID: abc123-def ...") (u "abc123-def").
Proof.
  destruct parseVersionIdFromUpload_contract as [H _].
  apply (proj1 (H _ _)). reflexivity.
Defined.

Lemma buildDefaultMessage_contract_witness :
  buildDefaultMessage
    {| owner := None; repo := None; ref := Some (u "refs/tags/v1");
       branch := None; sha := None; short_sha := None; actor := None;
       run_id := None; run_number := None;
       commit_message := Some (u "fix bug");
       short_commit_message := Some (u "fix bug") |}
  = u "fix bug".
Proof.
  destruct buildDefaultMessage_contract as [_ [_ [H _]]].
  apply H; [reflexivity .. |]. vm_compute. lia.
Defined.

End ContractWitnesses.

(** * Further properties *)

(** ** The whole course of a run *)

Section RunSummary.
Import Trace RunSpec RunValues.

Ltac plumb :=
  cbn [mbind mret act_bind act_ret throw try_catch emit info setFailed
       setOutput when exec fst snd andb negb].

Ltac project :=
  repeat (rewrite ?execs_app, ?outputs_app, ?failures_app,
                  ?execs_cons, ?outputs_cons, ?failures_cons,
                  ?execs_stream, ?outputs_stream, ?failures_stream);
  cbn [app execs outputs failures flat_map].

(** A run either stops at its inputs, or shows exactly what [observed]
    tells. *)
Lemma run_summary (w : World) :
  exists md,
    collectMetadata w
    = ([Exec (u "git") [u "log"; u "-1"; u "--pretty=%B"] git_options],
       inl md) /\
    exists R,
      run w = (R, inl tt) /\
      ((inputs_ok w = false /\ exists msg, R = [SetFailed msg]) \/
       (inputs_ok w = true /\
        (execs R, outputs R, failures R) = observed w md)).
Proof.
  destruct (collectMetadata_fields w) as [md [Hmd _]].
  exists md. split; [exact Hmd |].
  unfold run, getInput, inputs_ok. plumb.
  destruct (truthy (inputs w (u "api_token"))) eqn:Etok; plumb;
    [| eexists; split; [reflexivity |]; left; split;
       [reflexivity | eexists; reflexivity]].
  destruct (truthy (inputs w (u "wrangler_command"))) eqn:Ecmd; plumb;
    [| eexists; split; [reflexivity |]; left; split;
       [reflexivity | eexists; reflexivity]].
  destruct (truthy (inputs w (u "config"))) eqn:Ecfg; plumb;
    [| eexists; split; [reflexivity |]; left; split;
       [reflexivity | eexists; reflexivity]].
  destruct (truthy (trim (inputs w (u "api_token")))) eqn:Etok'; plumb;
    [| eexists; split; [reflexivity |]; left; split;
       [reflexivity | eexists; reflexivity]].
  rewrite Hmd. plumb.
  fold (only_upload w). fold (config_path w).
  set (tag := if truthy (trim (inputs w (u "tag_template"))) then _ else _).
  set (msg := if truthy (trim (inputs w (u "message_template"))) then _ else _).
  set (wd := if (0 <? length _)%nat then _ else _).
  set (cmd := trim (trim (inputs w (u "wrangler_command")))).
  set (opts := wrangler_options _ wd).
  set (more := Tokenizer.splitArgs (trim (inputs w (u "upload_args"))) ++ _).
  set (dmore := Tokenizer.splitArgs (trim (inputs w (u "deploy_args"))) ++ _).
  set (up := exec_oracle w cmd _ opts).
  assert (Hres : upload_result w md = up) by reflexivity.
  assert (Hmsg : rendered_message w md = msg) by reflexivity.
  assert (Htag : rendered_tag w md = tag) by reflexivity.
  assert (Hdres : forall id,
            deploy_result w md id
            = exec_oracle w cmd
                ([u "versions"; u "deploy"; id; u "-y"; u "--config";
                  config_path w] ++ dmore) opts) by reflexivity.
  destruct (truthy tag) eqn:Etag; plumb;
  (destruct (outcome up) as [code | m] eqn:Eup; plumb;
   [ destruct (code =? 0)%Z eqn:Ecode; plumb;
     [ destruct (if_truthy (Extractor.parseVersionIdFromUpload
                              (stdout_text (chunks up)))) as [id |] eqn:Evid;
       destruct (only_upload w) eqn:Eonly; plumb
     | ]
   | ]).
  (* upload rejected, or exited with a non-zero code; parse failure in full
     mode *)
  all: try (eexists; (split; [reflexivity |]); right;
            (split; [reflexivity |]);
            unfold observed, uploaded_version, publish_if; cbv zeta;
            rewrite Hres, Eup, ?Ecode, ?Evid, ?Eonly;
            project; reflexivity).
  (* upload-only mode *)
  all: try (destruct (truthy msg) eqn:Emsg; plumb;
            eexists; (split; [reflexivity |]); right;
            (split; [reflexivity |]);
            unfold observed, uploaded_version, publish_if; cbv zeta;
            rewrite Hres, Hmsg, Htag, Eup, Ecode, Evid, Eonly, Emsg, Etag;
            project; reflexivity).
  (* full mode with a version id: the deploy invocation *)
  all: set (dep := exec_oracle w cmd _ opts);
       destruct (outcome dep) as [dcode | dm] eqn:Edep; plumb;
       [ destruct (dcode =? 0)%Z eqn:Edcode; plumb;
         [ destruct (if_truthy (Extractor.parseWranglerOutput
                                  (stdout_text (chunks dep)))) eqn:Eurl;
           destruct (truthy msg) eqn:Emsg; plumb
         | ]
       | ];
       eexists; (split; [reflexivity |]); right;
       (split; [reflexivity |]);
       unfold observed, uploaded_version, deployed_url, publish_if;
       cbv zeta;
       rewrite Hres, Hmsg, Htag, Eup, Ecode, Evid, Eonly, (Hdres id);
       fold dep; rewrite Edep, ?Edcode, ?Eurl, ?Emsg, ?Etag;
       project; reflexivity.
Qed.

End RunSummary.

Section RunExtras.
Import Trace RunSpec RunValues Samples MoreSamples.

Ltac observed_cases w md :=
  unfold observed, publish_if in *; cbv zeta in *;
  let code := fresh "code" in
  let dcode := fresh "dcode" in
  let id := fresh "id" in
  destruct (outcome (upload_result w md)) as [code | ?m] eqn:?Eup;
  [ destruct (code =? 0)%Z eqn:?Ecode;
    [ destruct (uploaded_version w md) as [id |] eqn:?Evid;
      destruct (only_upload w) eqn:?Eonly;
      [ | destruct (outcome (deploy_result w md id)) as [dcode | ?dm] eqn:?Edep;
          [ destruct (dcode =? 0)%Z eqn:?Edcode;
            [ destruct (deployed_url w md id) eqn:?Eurl | ]
          | ]
        | | ]
    | ]
  | ];
  destruct (truthy (rendered_message w md)) eqn:?Emsg;
  destruct (truthy (rendered_tag w md)) eqn:?Etag.

Lemma run_rejected_inputs (w : World) :
  inputs_ok w = false -> exists msg, run w = ([SetFailed msg], inl tt).
Proof.
  intros Hbad. destruct (run_summary w) as [md [_ [R [HR [[_ [msg ->]] | [Hok _]]]]]].
  - exists msg. exact HR.
  - congruence.
Qed.

Lemma run_observed (w : World) :
  inputs_ok w = true ->
  exists md R,
    collectMetadata w
    = ([Exec (u "git") [u "log"; u "-1"; u "--pretty=%B"] git_options],
       inl md) /\
    run w = (R, inl tt) /\
    (execs R, outputs R, failures R) = observed w md.
Proof.
  intros Hok. destruct (run_summary w) as [md [Hmd [R [HR [[Hbad _] | [_ Hobs]]]]]].
  - congruence.
  - exists md, R. repeat split; assumption.
Qed.

(** The invocations [observed] tells: git, the upload, and the deploy when
    the upload gave a version id in full mode. *)
Lemma observed_calls (w : World) (md : DeployMetadata) :
  fst (fst (observed w md))
  = [git_call; upload_call w md]
    ++ match outcome (upload_result w md) with
       | Exited code =>
           if (code =? 0)%Z then
             match uploaded_version w md with
             | Some id => if only_upload w then [] else [deploy_call w md id]
             | None => []
             end
           else []
       | Rejected _ => []
       end.
Proof. observed_cases w md; reflexivity. Qed.

(** X15: the inputs are validated in order: an unset token, then an unset
    command, fail as required inputs that were not supplied; a token that
    is blank fails with the message of [run] itself; each time that is the
    whole trace; and a run invokes nothing, not even git, exactly when its
    inputs are not valid. *)
Theorem run_input_validation (w : World) :
  (inputs w (u "api_token") = [] ->
     run w = ([SetFailed (u "Input required and not supplied: api_token")],
              inl tt)) /\
  (inputs w (u "api_token") <> [] ->
   inputs w (u "wrangler_command") = [] ->
     run w
     = ([SetFailed (u "Input required and not supplied: wrangler_command")],
        inl tt)) /\
  (inputs w (u "api_token") <> [] ->
   inputs w (u "wrangler_command") <> [] ->
   inputs w (u "config") <> [] ->
   trim (inputs w (u "api_token")) = [] ->
     run w
     = ([SetFailed (u "Cloudflare API token (api_token) is required.")],
        inl tt)) /\
  (inputs_ok w = false <-> execs (fst (run w)) = []).
Proof.
  split; [| split; [| split]].
  - intros Htok. unfold run, getInput. rewrite Htok. reflexivity.
  - intros Htok Hcmd. apply truthy_true in Htok.
    unfold run, getInput. rewrite Htok, Hcmd. reflexivity.
  - intros Htok Hcmd Hcfg Hblank. apply truthy_true in Htok, Hcmd, Hcfg.
    unfold run, getInput. rewrite Htok, Hcmd, Hcfg, Hblank. reflexivity.
  - split.
    + intros Hbad. destruct (run_rejected_inputs w Hbad) as [msg ->].
      reflexivity.
    + intros Hnone. destruct (inputs_ok w) eqn:Hok; [| reflexivity].
      destruct (run_observed w Hok) as [md [R [_ [HR Hobs]]]].
      rewrite HR in Hnone. cbn [fst] in Hnone.
      apply (f_equal (fun x => fst (fst x))) in Hobs. cbn [fst] in Hobs.
      rewrite observed_calls, Hnone in Hobs. discriminate Hobs.
Qed.

(** X16: a run ends normally, signals at most one failure, and a run that
    signals a failure publishes nothing. *)
Theorem failed_run_publishes_nothing (w : World) :
  snd (run w) = inl tt /\
  (failures (fst (run w)) = [] \/
   exists msg, failures (fst (run w)) = [msg] /\ outputs (fst (run w)) = []).
Proof.
  destruct (inputs_ok w) eqn:Hok.
  - destruct (run_observed w Hok) as [md [R [_ [HR Hobs]]]].
    rewrite HR. cbn [fst snd]. split; [reflexivity |].
    observed_cases w md; injection Hobs as _ Ho Hf; rewrite ?Ho, Hf;
      solve [left; reflexivity | right; eexists; split; reflexivity].
  - destruct (run_rejected_inputs w Hok) as [msg ->].
    split; [reflexivity |]. right. exists msg. split; reflexivity.
Qed.

(** X17: with valid inputs a run invokes git, then the upload, and then the
    deploy exactly when the upload exited 0, its output held a version id
    and upload-only mode is off; the deploy is made with that version id. *)
Theorem invocation_sequence (w : World) :
  inputs_ok w = true ->
  exists md,
    collectMetadata w
    = ([Exec (u "git") [u "log"; u "-1"; u "--pretty=%B"] git_options],
       inl md) /\
    execs (fst (run w))
    = [git_call; upload_call w md]
      ++ match outcome (upload_result w md) with
         | Exited code =>
             if (code =? 0)%Z then
               match uploaded_version w md with
               | Some id => if only_upload w then [] else [deploy_call w md id]
               | None => []
               end
             else []
         | Rejected _ => []
         end.
Proof.
  intros Hok. destruct (run_observed w Hok) as [md [R [Hmd [HR Hobs]]]].
  exists md. split; [exact Hmd |]. rewrite HR. cbn [fst].
  apply (f_equal (fun x => fst (fst x))) in Hobs. cbn [fst] in Hobs.
  rewrite Hobs. apply observed_calls.
Qed.

Lemma invocation_sequence_witness :
  execs (fst (run world_success))
  = [git_call;
     (u "npx wrangler",
      [u "versions"; u "upload"; u "--config"; u "wrangler.toml";
       u "--env"; u "production"; u "--message=main@a1b2c3d: fix bug"],
      wrangler_options (u "secret") None);
     (u "npx wrangler",
      [u "versions"; u "deploy"; u "abc123-def"; u "-y"; u "--config";
       u "wrangler.toml"; u "--message=main@a1b2c3d: fix bug"],
      wrangler_options (u "secret") None)].
Proof.
  destruct (invocation_sequence world_success eq_refl) as [md [Hmd ->]].
  vm_compute in Hmd. injection Hmd as <-. vm_compute. reflexivity.
Defined.

Ltac name_clash H :=
  apply (f_equal fst) in H; vm_compute in H; discriminate H.

Lemma if_truthy_some (o : option jsstring) (s : jsstring) :
  if_truthy o = Some s -> o = Some s /\ s <> [].
Proof.
  destruct o as [[| c r] |]; simpl; intros H; inversion H; subst.
  split; [reflexivity | discriminate].
Qed.

Ltac nonempty :=
  match goal with
  | H : uploaded_version _ _ = Some ?x |- ?x <> [] =>
      exact (proj2 (if_truthy_some _ _ H))
  | H : deployed_url _ _ _ = Some ?x |- ?x <> [] =>
      exact (proj2 (if_truthy_some _ _ H))
  | H : truthy ?x = true |- ?x <> [] => exact (proj1 (truthy_true _) H)
  end.


(** A deploy invocation in the trace of a run: it is the deploy call, made
    in full mode with the version id of the upload, and the end of the run
    follows from how it ends. *)
Lemma deploy_call_inversion (w : World) (c : jsstring) (a : list jsstring)
    (o : ExecOptions) :
  In (c, a, o) (execs (fst (run w))) ->
  is_deploy a = true ->
  exists md id R,
    collectMetadata w
    = ([Exec (u "git") [u "log"; u "-1"; u "--pretty=%B"] git_options],
       inl md) /\
    run w = (R, inl tt) /\
    (c, a, o) = deploy_call w md id /\
    uploaded_version w md = Some id /\
    only_upload w = false /\
    (outputs R, failures R)
    = match outcome (deploy_result w md id) with
      | Rejected m => ([], [error_text m])
      | Exited dcode =>
          if (dcode =? 0)%Z then
            (match deployed_url w md id with
             | Some url => [(u "deployment_url", url)]
             | None => []
             end
             ++ [(u "version_id", id)]
             ++ publish_if (u "message") (rendered_message w md)
             ++ publish_if (u "tag") (rendered_tag w md),
             [])
          else
            ([], [u "wrangler versions deploy failed with exit code "
                  ++ number_to_string dcode
                  ++ u ". See logs above for details."])
      end.
Proof.
  intros Hin Hdep.
  destruct (inputs_ok w) eqn:Hok.
  2:{ destruct (run_rejected_inputs w Hok) as [msg HR].
      rewrite HR in Hin. destruct Hin. }
  destruct (run_observed w Hok) as [md [R [Hmd [HR Hobs]]]].
  rewrite HR in Hin. cbn [fst] in Hin.
  assert (Hcalls : execs R = fst (fst (observed w md))) by (rewrite <- Hobs; reflexivity).
  rewrite Hcalls, observed_calls in Hin.
  assert (Hnot : forall x, In (c, a, o) ([git_call; upload_call w md] ++ x) ->
                           In (c, a, o) x).
  { intros x [E | [E | E]]; [| | exact E].
    - inversion E; subst. discriminate Hdep.
    - inversion E; subst. discriminate Hdep. }
  apply Hnot in Hin. clear Hnot Hcalls.
  unfold observed in Hobs. cbv zeta in Hobs.
  destruct (outcome (upload_result w md)) as [code | m]; [| destruct Hin].
  destruct (code =? 0)%Z; [| destruct Hin].
  destruct (uploaded_version w md) as [id |] eqn:Evid; [| destruct Hin].
  destruct (only_upload w) eqn:Eonly; [destruct Hin |].
  destruct Hin as [E | []].
  exists md, id, R. repeat split; try assumption; [congruence |].
  destruct (outcome (deploy_result w md id)) as [dcode | dm].
  - destruct (dcode =? 0)%Z; injection Hobs as _ Ho Hf; rewrite Ho, Hf;
      reflexivity.
  - injection Hobs as _ Ho Hf; rewrite Ho, Hf. reflexivity.
Qed.

(** X19: when the deploy invocation fails, the run signals that failure and
    publishes no output, not even the version id of the upload. *)
Theorem deploy_failure_atomic (w : World) (cmd : jsstring)
    (args : list jsstring) (opts : ExecOptions) :
  In (cmd, args, opts) (execs (fst (run w))) ->
  is_deploy args = true ->
  (forall code : Z,
     outcome (exec_oracle w cmd args opts) = Exited code ->
     code <> 0%Z ->
     failures (fst (run w))
     = [u "wrangler versions deploy failed with exit code "
        ++ number_to_string code ++ u ". See logs above for details."] /\
     outputs (fst (run w)) = []) /\
  (forall message : jsstring,
     outcome (exec_oracle w cmd args opts) = Rejected message ->
     failures (fst (run w)) = [error_text message] /\
     outputs (fst (run w)) = []).
Proof.
  intros Hin Hdep.
  destruct (deploy_call_inversion w cmd args opts Hin Hdep)
    as [md [id [R [_ [HR [Hcall [_ [_ Hend]]]]]]]].
  injection Hcall as -> -> ->. fold (deploy_result w md id).
  rewrite HR. cbn [fst]. split.
  - intros code Hexit Hcode. rewrite Hexit in Hend.
    apply Z.eqb_neq in Hcode. rewrite Hcode in Hend.
    injection Hend as -> ->. split; reflexivity.
  - intros message Hexit. rewrite Hexit in Hend.
    injection Hend as -> ->. split; reflexivity.
Qed.

Lemma deploy_failure_atomic_witness :
  failures (fst (run world_deploy_fails))
  = [u "wrangler versions deploy failed with exit code 3. See logs above for details."] /\
  outputs (fst (run world_deploy_fails)) = [].
Proof.
  assert (Hin : In (u "npx wrangler",
                    [u "versions"; u "deploy"; u "abc123-def"; u "-y";
                     u "--config"; u "wrangler.toml";
                     u "--message=main@a1b2c3d: fix bug"],
                    wrangler_options (u "secret") None)
                   (execs (fst (run world_deploy_fails)))).
  { vm_compute. right. right. left. reflexivity. }
  destruct (deploy_failure_atomic world_deploy_fails _ _ _ Hin
              ltac:(vm_compute; reflexivity)) as [H _].
  exact (H 3%Z ltac:(vm_compute; reflexivity) ltac:(discriminate)).
Defined.

(** X20: when the deploy invocation exits 0 the run signals no failure and
    publishes, in this order, the deployment URL when the output of the
    deploy holds one, the version id that was deployed, the message and the
    tag when they are not empty. *)
Theorem deploy_success_outputs (w : World) (cmd : jsstring)
    (args : list jsstring) (opts : ExecOptions) :
  In (cmd, args, opts) (execs (fst (run w))) ->
  is_deploy args = true ->
  outcome (exec_oracle w cmd args opts) = Exited 0 ->
  failures (fst (run w)) = [] /\
  exists md id,
    collectMetadata w
    = ([Exec (u "git") [u "log"; u "-1"; u "--pretty=%B"] git_options],
       inl md) /\
    args = deploy_args w md id /\
    uploaded_version w md = Some id /\
    outputs (fst (run w))
    = match if_truthy (Extractor.parseWranglerOutput
                         (stdout_text (chunks (exec_oracle w cmd args opts))))
      with
      | Some url => [(u "deployment_url", url)]
      | None => []
      end
      ++ [(u "version_id", id)]
      ++ publish_if (u "message") (rendered_message w md)
      ++ publish_if (u "tag") (rendered_tag w md).
Proof.
  intros Hin Hdep Hexit.
  destruct (deploy_call_inversion w cmd args opts Hin Hdep)
    as [md [id [R [Hmd [HR [Hcall [Hvid [_ Hend]]]]]]]].
  injection Hcall as -> -> ->. fold (deploy_result w md id) in *.
  rewrite Hexit in Hend. cbn [Z.eqb] in Hend. injection Hend as Ho Hf.
  rewrite HR. cbn [fst]. split; [exact Hf |].
  exists md, id. repeat split; assumption.
Qed.

Lemma deploy_success_outputs_witness :
  failures (fst (run world_success)) = [] /\
  outputs (fst (run world_success))
  = [(u "deployment_url", u "https://site.example/x");
     (u "version_id", u "abc123-def");
     (u "message", u "main@a1b2c3d: fix bug")].
Proof.
  assert (Hin : In (u "npx wrangler",
                    [u "versions"; u "deploy"; u "abc123-def"; u "-y";
                     u "--config"; u "wrangler.toml";
                     u "--message=main@a1b2c3d: fix bug"],
                    wrangler_options (u "secret") None)
                   (execs (fst (run world_success)))).
  { vm_compute. right. right. left. reflexivity. }
  destruct (deploy_success_outputs world_success _ _ _ Hin
              ltac:(vm_compute; reflexivity) ltac:(vm_compute; reflexivity))
    as [Hf [md [id [Hmd [Hargs [_ Hout]]]]]].
  split; [exact Hf |]. rewrite Hout.
  vm_compute in Hmd. injection Hmd as <-.
  vm_compute in Hargs. inversion Hargs. vm_compute. reflexivity.
Defined.

Lemma last_message (prefix extra : list jsstring) (message : jsstring) :
  last (prefix ++ extra ++ [message]) = Some message.
Proof. rewrite app_assoc. apply last_snoc. Qed.

(** X18: the upload and the deploy invocation of a run are made with the same
    command, the same options (the trimmed token as credential, the working
    directory when one is given) and end with the same message argument,
    which is the rendered template, or the default message when no template
    is given. *)
Theorem wrangler_invocations_share_settings (w : World) (cmd : jsstring)
    (args : list jsstring) (opts : ExecOptions) :
  In (cmd, args, opts) (execs (fst (run w))) ->
  is_upload args || is_deploy args = true ->
  cmd = trim (trim (inputs w (u "wrangler_command"))) /\
  opt_api_token opts = Some (trim (inputs w (u "api_token"))) /\
  opt_cwd opts = working_directory w /\
  opt_silent opts = false /\
  exists md,
    collectMetadata w
    = ([Exec (u "git") [u "log"; u "-1"; u "--pretty=%B"] git_options],
       inl md) /\
    last args
    = Some (u "--message="
            ++ (if truthy (trim (inputs w (u "message_template")))
                then Renderer.renderTemplate
                       (trim (inputs w (u "message_template")))
                       (preTemplateContext md)
                else buildDefaultMessage md)).
Proof.
  intros Hin Hkind.
  destruct (inputs_ok w) eqn:Hok.
  2:{ destruct (run_rejected_inputs w Hok) as [msg HR].
      rewrite HR in Hin. destruct Hin. }
  destruct (run_observed w Hok) as [md [R [Hmd [HR Hobs]]]].
  rewrite HR in Hin. cbn [fst] in Hin.
  assert (Hcalls : execs R = fst (fst (observed w md)))
    by (rewrite <- Hobs; reflexivity).
  rewrite Hcalls, observed_calls in Hin.
  assert (Hcase : (cmd, args, opts) = upload_call w md \/
                  exists id, (cmd, args, opts) = deploy_call w md id).
  { destruct Hin as [E | [E | Hin]].
    - inversion E; subst. discriminate Hkind.
    - left. congruence.
    - right. destruct (outcome (upload_result w md)) as [code | m];
        [| destruct Hin].
      destruct (code =? 0)%Z; [| destruct Hin].
      destruct (uploaded_version w md) as [id |]; [| destruct Hin].
      destruct (only_upload w); [destruct Hin |].
      destruct Hin as [E | []]. exists id. congruence. }
  destruct Hcase as [E | [id E]]; injection E as -> -> ->;
    (repeat (split; [reflexivity |])); exists md; (split; [exact Hmd |]);
    apply last_message.
Qed.

Lemma wrangler_invocations_share_settings_witness :
  opt_api_token (wrangler_options (u "secret") None) = Some (u "secret") /\
  last [u "versions"; u "deploy"; u "abc123-def"; u "-y";
        u "--config"; u "wrangler.toml"; u "--message=main@a1b2c3d: fix bug"]
  = Some (u "--message=main@a1b2c3d: fix bug").
Proof.
  assert (Hin : In (u "npx wrangler",
                    [u "versions"; u "deploy"; u "abc123-def"; u "-y";
                     u "--config"; u "wrangler.toml";
                     u "--message=main@a1b2c3d: fix bug"],
                    wrangler_options (u "secret") None)
                   (execs (fst (run world_success)))).
  { vm_compute. right. right. left. reflexivity. }
  destruct (wrangler_invocations_share_settings world_success _ _ _ Hin
              ltac:(vm_compute; reflexivity))
    as [_ [Htok [_ [_ [md [Hmd Hlast]]]]]].
  split; [exact Htok |]. rewrite Hlast.
  vm_compute in Hmd. injection Hmd as <-. vm_compute. reflexivity.
Defined.

(** X21: in upload-only mode a run never invokes the deploy operation and
    never publishes a deployment URL; when its upload exits 0 it signals no
    failure and publishes the version id, when the output holds one, then
    the message and the tag when they are not empty. *)
Theorem upload_only_mode (w : World) :
  only_upload w = true ->
  Forall (fun call => is_deploy (snd (fst call)) = false)
         (execs (fst (run w))) /\
  (forall v, ~ In (u "deployment_url", v) (outputs (fst (run w)))) /\
  (forall t md,
     inputs_ok w = true ->
     collectMetadata w = (t, inl md) ->
     outcome (upload_result w md) = Exited 0 ->
     failures (fst (run w)) = [] /\
     outputs (fst (run w))
     = match uploaded_version w md with
       | Some id => [(u "version_id", id)]
       | None => []
       end
       ++ publish_if (u "message") (rendered_message w md)
       ++ publish_if (u "tag") (rendered_tag w md)).
Proof.
  intros Honly.
  destruct (inputs_ok w) eqn:Hok.
  2:{ destruct (run_rejected_inputs w Hok) as [msg ->].
      split; [constructor |]. split; [intros v [] |]. discriminate. }
  destruct (run_observed w Hok) as [md [R [Hmd [HR Hobs]]]].
  rewrite HR. cbn [fst].
  assert (Hcalls : execs R = [git_call; upload_call w md]).
  { transitivity (fst (fst (observed w md)));
      [rewrite <- Hobs; reflexivity |].
    rewrite observed_calls, Honly.
    destruct (outcome _) as [code | m]; [| reflexivity].
    destruct (code =? 0)%Z; [| reflexivity].
    destruct (uploaded_version w md); reflexivity. }
  split; [rewrite Hcalls; repeat constructor |].
  split.
  - intros v Hin.
    unfold observed, publish_if in Hobs. cbv zeta in Hobs.
    rewrite Honly in Hobs.
    destruct (outcome (upload_result w md)) as [code | m];
      [destruct (code =? 0)%Z; [destruct (uploaded_version w md) |] |];
      destruct (truthy (rendered_message w md));
      destruct (truthy (rendered_tag w md));
      injection Hobs as _ Ho _; rewrite Ho in Hin; cbn [app In] in Hin;
      repeat (destruct Hin as [Hin | Hin]; [name_clash Hin |]);
      destruct Hin.
  - intros t md' _ Hmd' Hexit. rewrite Hmd in Hmd'.
    injection Hmd' as _ <-.
    unfold observed in Hobs. cbv zeta in Hobs.
    rewrite Hexit, Honly in Hobs. cbn [Z.eqb] in Hobs.
    destruct (uploaded_version w md); injection Hobs as _ Ho Hf;
      rewrite Ho, Hf; split; reflexivity.
Qed.

Lemma upload_only_mode_witness :
  failures (fst (run world_only_upload_with_id)) = [] /\
  outputs (fst (run world_only_upload_with_id))
  = [(u "version_id", u "abc123-def");
     (u "message", u "main@a1b2c3d: fix bug");
     (u "tag", u "v-a1b2c3d")].
Proof.
  destruct (upload_only_mode world_only_upload_with_id eq_refl) as [_ [_ H]].
  destruct (H _ _ eq_refl eq_refl ltac:(vm_compute; reflexivity)) as [Hf Ho].
  split; [exact Hf |]. rewrite Ho. vm_compute. reflexivity.
Defined.

(** X22: what a run publishes: each output has one of the four names and a
    value that is not empty, no name is published twice, and without a tag
    template no tag is published. *)
Theorem published_outputs_well_formed (w : World) :
  Forall (fun nv => snd nv <> [] /\
                    In (fst nv) [u "deployment_url"; u "version_id";
                                 u "message"; u "tag"])
         (outputs (fst (run w))) /\
  NoDup (map fst (outputs (fst (run w)))) /\
  (trim (inputs w (u "tag_template")) = [] ->
   forall v, ~ In (u "tag", v) (outputs (fst (run w)))).
Proof.
  destruct (inputs_ok w) eqn:Hok.
  2:{ destruct (run_rejected_inputs w Hok) as [msg ->].
      split; [constructor |]. split; [constructor | intros _ v []]. }
  destruct (run_observed w Hok) as [md [R [Hmd [HR Hobs]]]].
  rewrite HR. cbn [fst].
  assert (Htag : trim (inputs w (u "tag_template")) = [] ->
                 truthy (rendered_tag w md) = false).
  { intros H. unfold rendered_tag. rewrite H. reflexivity. }
  observed_cases w md; injection Hobs as _ Ho _; rewrite Ho;
    cbn [app map fst];
    (split; [repeat (constructor; [cbn [fst snd];
               split; [nonempty | cbn [In]; tauto] |]); constructor |]);
    (split; [apply (bool_decide_unpack _); vm_compute; exact I |]);
    intros Hnone v Hin; specialize (Htag Hnone); try congruence;
    cbn [In] in Hin;
    repeat (destruct Hin as [Hin | Hin]; [name_clash Hin |]);
    destruct Hin.
Qed.

Lemma published_outputs_well_formed_witness :
  ~ exists v, In (u "tag", v) (outputs (fst (run world_success))).
Proof.
  destruct (published_outputs_well_formed world_success) as [_ [_ H]].
  intros [v Hin]. exact (H eq_refl v Hin).
Defined.

End RunExtras.

(** ** More on the argument tokenizer *)

Section TokenizerExtras.
Import Tokenizer TokenizerSpec MoreSpec.

Lemma loop_plain (t : jsstring) (a : list jsstring) (cur : jsstring) :
  forallb is_plain t = true ->
  fold_left loop_body t (LoopState a cur None) = LoopState a (cur ++ t) None.
Proof.
  revert cur. induction t as [| c t IH]; intros cur H; simpl.
  - rewrite app_nil_r. reflexivity.
  - apply andb_prop in H as [Hc Ht]. unfold is_plain in Hc.
    apply andb_prop in Hc as [Hs Hq]. apply negb_true_iff in Hs, Hq.
    unfold loop_body at 2. simpl. unfold is_quote in Hq. rewrite Hq, Hs.
    rewrite (IH _ Ht), <- app_assoc. reflexivity.
Qed.

Lemma loop_space (sp : N) (a : list jsstring) (cur : jsstring) :
  is_space sp = true ->
  loop_body (LoopState a cur None) sp
  = LoopState (loop_exit (LoopState a cur None)) [] None.
Proof.
  intros Hs. unfold loop_body, loop_exit. simpl.
  pose proof (space_not_quote sp Hs) as Hq. unfold is_quote in Hq.
  rewrite Hq, Hs. destruct (truthy cur) eqn:E; [reflexivity |].
  apply truthy_false in E. subst. reflexivity.
Qed.

Lemma loop_join (sp : N) (toks : list jsstring) :
  is_space sp = true ->
  Forall (fun t => t <> [] /\ forallb is_plain t = true) toks ->
  forall a,
    loop_exit (fold_left loop_body (join [sp] toks) (LoopState a [] None))
    = a ++ toks.
Proof.
  intros Hs. induction toks as [| t toks IH]; intros Hall a.
  - simpl. unfold loop_exit. simpl. symmetry. apply app_nil_r.
  - inversion Hall as [| ? ? [Hne Hplain] Hrest]; subst.
    destruct toks as [| t' toks].
    + simpl join. rewrite (loop_plain t a [] Hplain). unfold loop_exit. simpl.
      apply truthy_true in Hne. rewrite Hne. reflexivity.
    + change (join [sp] (t :: t' :: toks))
        with (t ++ sp :: join [sp] (t' :: toks)).
      rewrite fold_left_app, (loop_plain t a [] Hplain).
      cbn [fold_left app]. rewrite (loop_space sp a t Hs).
      unfold loop_exit at 2. cbn [current args].
      apply truthy_true in Hne. rewrite Hne.
      rewrite (IH Hrest (a ++ [t])), <- app_assoc. reflexivity.
Qed.

(** X1: tokens that hold no white space and no quote come back from the line
    they are joined into with a white-space separator. *)
Theorem splitArgs_join_round_trip (sp : N) (toks : list jsstring) :
  is_space sp = true ->
  Forall (fun t => t <> [] /\ forallb is_plain t = true) toks ->
  splitArgs (join [sp] toks) = toks.
Proof.
  intros Hs Hall. rewrite splitArgs_loop. unfold loop_init.
  apply (loop_join sp toks Hs Hall []).
Qed.

Lemma splitArgs_join_round_trip_witness :
  splitArgs (join (u " ") [u "versions"; u "upload"; u "--env=production"])
  = [u "versions"; u "upload"; u "--env=production"].
Proof.
  apply (splitArgs_join_round_trip 32); [reflexivity |].
  repeat constructor; discriminate.
Defined.

(** The tokens already pushed are not touched by the rest of the loop. *)
Lemma loop_prefix (raw : jsstring) (p : list jsstring) (st : loop_state) :
  fold_left loop_body raw
    (LoopState (p ++ args st) (current st) (quote st))
  = LoopState (p ++ args (fold_left loop_body raw st))
      (current (fold_left loop_body raw st))
      (quote (fold_left loop_body raw st)).
Proof.
  revert st. induction raw as [| c raw IH]; intros [A cur q]; simpl.
  - reflexivity.
  - rewrite <- (IH (loop_body (LoopState A cur q) c)). f_equal.
    unfold loop_body. simpl.
    destruct q as [q |].
    + destruct (c =? q); reflexivity.
    + destruct ((c =? SQUOTE) || (c =? DQUOTE)); [reflexivity |].
      destruct (is_space c); [| reflexivity].
      destruct (truthy cur); simpl; [| reflexivity].
      rewrite app_assoc. reflexivity.
Qed.

(** X2: at a white space that stands outside quotes the tokenizer splits the
    line: the tokens are those of what precedes followed by those of what
    follows. *)
Theorem splitArgs_app (a b : jsstring) (sp : N) :
  is_space sp = true ->
  open_quote a = None ->
  splitArgs (a ++ sp :: b) = splitArgs a ++ splitArgs b.
Proof.
  intros Hs Hopen. rewrite !splitArgs_loop. unfold open_quote in Hopen.
  rewrite fold_left_app.
  destruct (fold_left loop_body a loop_init) as [A cur q] eqn:Ea.
  simpl in Hopen. subst q. cbn [fold_left].
  rewrite (loop_space sp A cur Hs).
  pose proof (loop_prefix b (loop_exit (LoopState A cur None)) loop_init) as Hp.
  cbn [loop_init args current quote] in Hp. rewrite app_nil_r in Hp.
  fold loop_init in Hp. rewrite Hp.
  generalize (loop_exit (LoopState A cur None)) as pushed.
  intros pushed. unfold loop_exit. cbn [args current].
  destruct (truthy (current (fold_left loop_body b loop_init)));
    rewrite ?app_assoc; reflexivity.
Qed.

Lemma splitArgs_app_witness :
  splitArgs (u "--msg 'a b'" ++ 32 :: u "--env x")
  = [u "--msg"; u "a b"] ++ [u "--env"; u "x"].
Proof. apply splitArgs_app; reflexivity. Defined.

(** X3: a string that does not hold the quote it is wrapped in comes back
    as one token, white space and quotes of the other kind included; the
    closing quote may be missing; an empty string gives no token. *)
Theorem splitArgs_quoted_verbatim (q : N) (t : jsstring) :
  is_quote q = true ->
  forallb (fun c => negb (c =? q)) t = true ->
  splitArgs (q :: t ++ [q]) = (if truthy t then [t] else []) /\
  splitArgs (q :: t) = (if truthy t then [t] else []).
Proof.
  intros Hq Ht.
  assert (Hok : forall closed, well_formed [Quoted q t closed] = true).
  { intros closed. simpl. rewrite Hq, Ht. reflexivity. }
  split.
  - pose proof (splitArgs_pieces [Quoted q t true] (Hok true)) as H.
    unfold text, tokens in H. simpl in H. rewrite !app_nil_r in H. exact H.
  - pose proof (splitArgs_pieces [Quoted q t false] (Hok false)) as H.
    unfold text, tokens in H. simpl in H. rewrite !app_nil_r in H. exact H.
Qed.

Lemma splitArgs_quoted_verbatim_witness :
  splitArgs (DQUOTE :: u "it's  a message" ++ [DQUOTE])
  = [u "it's  a message"].
Proof.
  apply (splitArgs_quoted_verbatim DQUOTE (u "it's  a message"));
    reflexivity.
Defined.

End TokenizerExtras.

(** ** More on the template renderer *)

Section RendererExtras.
Import Renderer RendererSpec MoreSpec.

(** X4: a placeholder renders to the value the context has for its name,
    verbatim: what is inserted is not scanned again, and the rest of the
    template is rendered as if it stood alone. *)
Theorem renderTemplate_placeholder (context : TemplateContext)
    (ws1 key ws2 rest : jsstring) :
  key <> [] ->
  forallb is_word key = true ->
  forallb is_space ws1 = true ->
  forallb is_space ws2 = true ->
  renderTemplate ([LBRACE; LBRACE] ++ ws1 ++ key ++ ws2 ++ [RBRACE; RBRACE]
                  ++ rest) context
  = lookup_value context key ++ renderTemplate rest context /\
  forall value,
    renderTemplate ([LBRACE; LBRACE] ++ ws1 ++ key ++ ws2
                    ++ [RBRACE; RBRACE])
                   (<[key := Some value]> context)
    = value.
Proof.
  intros Hk Hw H1 H2.
  assert (Hp : forall r,
             placeholder_at ([LBRACE; LBRACE] ++ ws1 ++ key ++ ws2
                             ++ [RBRACE; RBRACE] ++ r) key r).
  { intros r. exists ws1, ws2. repeat split; assumption. }
  split.
  - apply render_placeholder, Hp.
  - intros value. rewrite (render_placeholder _ _ key [] (Hp [])).
    unfold lookup_value. rewrite lookup_insert_eq. apply app_nil_r.
Qed.

Lemma renderTemplate_placeholder_witness :
  renderTemplate (u "{{ msg }}")
    (<[u "msg" := Some (u "see {{sha}}")]> (<[u "sha" := Some (u "a1")]> ∅))
  = u "see {{sha}}".
Proof.
  destruct (renderTemplate_placeholder
              (<[u "sha" := Some (u "a1")]> ∅) (u " ") (u "msg") (u " ") [])
    as [_ H]; [discriminate | reflexivity ..|].
  apply H.
Defined.

(** Every name of [Object.prototype] can stand in a placeholder, and none
    of its properties prints as the empty string. *)
Lemma proto_names_are_words (key text : jsstring) :
  object_prototype !! key = Some text ->
  key <> [] /\ forallb is_word key = true /\ text <> [].
Proof.
  intros H. apply elem_of_list_to_map_2 in H.
  repeat (apply elem_of_cons in H as [H | H];
          [injection H as -> ->;
           split; [discriminate | split; [reflexivity | discriminate]] |]).
  apply elem_of_nil in H. destruct H.
Qed.

(** X5: a rendering depends on the context only through the names the
    template has placeholders for: a key it does not name may be added or
    changed; and a key whose value is undefined renders as a key that is
    absent when, and only when, [Object.prototype] has no property of that
    name: an undefined [toString] renders to nothing, an absent one to the
    text of the inherited function. *)
Theorem renderTemplate_context_agreement :
  (forall (template : jsstring) (context context' : TemplateContext),
     (forall key, names_key template key ->
                  lookup_value context key = lookup_value context' key) ->
     renderTemplate template context = renderTemplate template context') /\
  (forall (template : jsstring) (context : TemplateContext) (key : jsstring)
          (value : option jsstring),
     ~ names_key template key ->
     renderTemplate template (<[key := value]> context)
     = renderTemplate template context) /\
  (forall (template : jsstring) (context : TemplateContext) (key : jsstring),
     object_prototype !! key = None ->
     renderTemplate template (<[key := None]> context)
     = renderTemplate template (delete key context)) /\
  (forall (context : TemplateContext) (key text : jsstring),
     object_prototype !! key = Some text ->
     text <> [] /\
     renderTemplate ([LBRACE; LBRACE] ++ key ++ [RBRACE; RBRACE])
                    (<[key := None]> context) = [] /\
     renderTemplate ([LBRACE; LBRACE] ++ key ++ [RBRACE; RBRACE])
                    (delete key context) = text) /\
  renderTemplate (u "{{toString}}") (<[u "toString" := None]> ∅) = [] /\
  renderTemplate (u "{{toString}}") (delete (u "toString") ∅)
  = u "function toString() { [native code] }".
Proof.
  assert (H : forall (template : jsstring) (context context' : TemplateContext),
             (forall key, names_key template key ->
                          lookup_value context key = lookup_value context' key) ->
             renderTemplate template context = renderTemplate template context').
  { intros template context context' H. unfold renderTemplate.
    apply replace_agree, H. }
  split; [exact H |]. split; [| split; [| split; [| split]]].
  - intros template context key value Hnot. apply H.
    intros k Hk. unfold lookup_value.
    rewrite lookup_insert_ne; [reflexivity |]. intros ->. exact (Hnot Hk).
  - intros template context key Hproto. apply H. intros k _.
    unfold lookup_value.
    destruct (decide (key = k)) as [<- | Hne].
    + rewrite lookup_insert_eq, lookup_delete_eq, Hproto. reflexivity.
    + rewrite lookup_insert_ne, lookup_delete_ne by assumption. reflexivity.
  - intros context key text Hproto.
    destruct (proto_names_are_words key text Hproto) as [Hne [Hw Htext]].
    assert (Hp : placeholder_at ([LBRACE; LBRACE] ++ key ++ [RBRACE; RBRACE])
                   key []).
    { exists [], []. repeat split; assumption. }
    split; [exact Htext |].
    split; rewrite (render_placeholder _ _ _ _ Hp); unfold lookup_value.
    + rewrite lookup_insert_eq. reflexivity.
    + rewrite lookup_delete_eq, Hproto. apply app_nil_r.
  - vm_compute. reflexivity.
  - vm_compute. reflexivity.
Qed.

Lemma renderTemplate_context_agreement_witness :
  renderTemplate (u "{{k}}!") (<[u "k" := None]> ∅)
  = renderTemplate (u "{{k}}!") (delete (u "k") ∅).
Proof.
  destruct renderTemplate_context_agreement as [_ [_ [H _]]]. apply H.
  reflexivity.
Defined.

(** X6: a template in which no two opening braces stand side by side
    renders to itself. *)
Theorem renderTemplate_without_braces (template : jsstring)
    (context : TemplateContext) :
  (forall before after,
     template <> before ++ [LBRACE; LBRACE] ++ after) ->
  renderTemplate template context = template.
Proof.
  intros Hno. apply render_characterised, renders_with_free.
  intros before rest key after Heq [ws1 [ws2 [Hrest _]]].
  apply (Hno before (ws1 ++ key ++ ws2 ++ [RBRACE; RBRACE] ++ after)).
  rewrite Heq, Hrest. reflexivity.
Qed.

Lemma renderTemplate_without_braces_witness :
  renderTemplate (u "{a}") (<[u "a" := Some (u "x")]> ∅) = u "{a}".
Proof.
  apply renderTemplate_without_braces.
  intros [| x [| y [| z [| t before]]]] after H; vm_compute in H;
    discriminate H.
Defined.

End RendererExtras.

(** ** More on the output extractor *)

Section ExtractorExtras.
Import Extractor ExtractorSpec MoreSpec.

Lemma scheme_case (s1 : jsstring) :
  match s1 with
  | 115 :: r => (u "https", r)
  | _ => (u "http", s1)
  end
  = match s1 with
    | c :: r => if c =? 115 then (u "https", r) else (u "http", s1)
    | [] => (u "http", s1)
    end.
Proof.
  destruct s1 as [| c r]; [reflexivity |].
  destruct (N.eqb_spec c 115) as [-> | Hne]; [reflexivity |].
  destruct c as [| p]; [reflexivity |].
  repeat (destruct p as [p | p |]; try reflexivity).
  congruence.
Qed.

Lemma url_char_not_space (c : N) : is_url_char c = true -> is_space c = false.
Proof.
  unfold is_url_char. intros H. apply negb_true_iff, orb_false_iff in H.
  apply H.
Qed.

Lemma match_url_spec (s url : jsstring) :
  match_url s = Some url <-> url_at s url.
Proof.
  unfold match_url, url_at. split.
  - destruct (strip_prefix (u "http") s) as [s1 |] eqn:E0; [| discriminate].
    apply strip_prefix_spec in E0. rewrite scheme_case.
    destruct s1 as [| c r]; [discriminate |].
    destruct (N.eqb_spec c 115) as [-> | Hne].
    + destruct (strip_prefix (u "://") r) as [s3 |] eqn:E1; [| discriminate].
      apply strip_prefix_spec in E1.
      destruct (span is_url_char s3) as [body rest] eqn:E2.
      destruct (truthy body) eqn:Eb; [| discriminate].
      intros H. inversion H; subst url. clear H.
      apply span_spec in E2 as [H2 [W2 Hstop]].
      exists (u "https"), body, rest. subst s r s3.
      repeat split; auto. apply truthy_true, Eb.
    + destruct (strip_prefix (u "://") (c :: r)) as [s3 |] eqn:E1;
        [| discriminate].
      apply strip_prefix_spec in E1.
      destruct (span is_url_char s3) as [body rest] eqn:E2.
      destruct (truthy body) eqn:Eb; [| discriminate].
      intros H. inversion H; subst url. clear H.
      apply span_spec in E2 as [H2 [W2 Hstop]].
      exists (u "http"), body, rest. subst s s3. rewrite E1.
      repeat split; auto. apply truthy_true, Eb.
  - intros [scheme [body [rest [Hscheme [-> [-> [Hb [Wb Hstop]]]]]]]].
    apply truthy_true in Hb.
    destruct Hscheme as [-> | ->].
    + rewrite strip_prefix_app, scheme_case.
      change (u "://" ++ body ++ rest) with (58 :: 47 :: 47 :: body ++ rest).
      cbn [N.eqb Pos.eqb].
      change (58 :: 47 :: 47 :: body ++ rest) with (u "://" ++ body ++ rest).
      rewrite strip_prefix_app, (span_unique is_url_char body rest Wb Hstop), Hb.
      reflexivity.
    + change (u "https" ++ u "://" ++ body ++ rest)
        with (u "http" ++ (115 :: u "://" ++ body ++ rest)).
      rewrite strip_prefix_app. cbv iota beta.
      rewrite strip_prefix_app, (span_unique is_url_char body rest Wb Hstop), Hb.
      reflexivity.
Qed.

Lemma no_url_at_end (url : jsstring) : ~ url_at [] url.
Proof. intros H. apply match_url_spec in H. discriminate H. Qed.

Lemma url_nil : parseWranglerOutput [] = None.
Proof. reflexivity. Qed.

Lemma url_cons (c : N) (output : jsstring) :
  parseWranglerOutput (c :: output)
  = match match_url (c :: output) with
    | Some url => Some url
    | None => parseWranglerOutput output
    end.
Proof. reflexivity. Qed.

Lemma url_some (output url : jsstring) :
  parseWranglerOutput output = Some url <-> first_url output url.
Proof.
  unfold first_url. split.
  - induction output as [| c output IH].
    + rewrite url_nil. discriminate.
    + rewrite url_cons.
      destruct (match_url (c :: output)) as [x |] eqn:E.
      * intros H. inversion H; subst x.
        exists [], (c :: output). split; [reflexivity |].
        split; [apply match_url_spec, E |].
        intros ? ? ? _ Hlt. simpl in Hlt. lia.
      * intros H. destruct (IH H) as [before [rest [-> [Hat Hfirst]]]].
        exists (c :: before), rest. split; [reflexivity |].
        split; [exact Hat |].
        intros before' rest' url' Heq Hlt Hat'.
        destruct before' as [| c' before'].
        -- simpl in Heq. subst rest'. apply match_url_spec in Hat'. congruence.
        -- simpl in Heq. inversion Heq; subst c'.
           apply (Hfirst before' rest' url');
             [assumption | simpl in Hlt; lia | exact Hat'].
  - intros [before [rest [-> [Hat Hfirst]]]].
    induction before as [| c before IH].
    + destruct rest as [| c rest]; [destruct (no_url_at_end _ Hat) |].
      apply match_url_spec in Hat. simpl app. rewrite url_cons, Hat.
      reflexivity.
    + simpl app. rewrite url_cons.
      destruct (match_url (c :: before ++ rest)) as [x |] eqn:E.
      * exfalso. apply match_url_spec in E.
        apply (Hfirst [] (c :: before ++ rest) x);
          [reflexivity | simpl; lia | exact E].
      * apply IH. intros before' rest' url' Heq Hlt.
        apply (Hfirst (c :: before') rest' url');
          [simpl; rewrite Heq; reflexivity | simpl; lia].
Qed.

Lemma url_none (output : jsstring) :
  parseWranglerOutput output = None <-> no_url output.
Proof.
  unfold no_url. split.
  - induction output as [| c output IH].
    + intros _ before rest url Heq Hat.
      symmetry in Heq. apply app_eq_nil in Heq as [_ ->].
      exact (no_url_at_end _ Hat).
    + rewrite url_cons.
      destruct (match_url (c :: output)) as [x |] eqn:E; [discriminate |].
      intros H before rest url Heq Hat.
      destruct before as [| c' before].
      * simpl in Heq. subst rest. apply match_url_spec in Hat. congruence.
      * simpl in Heq. inversion Heq; subst.
        exact (IH H before rest url eq_refl Hat).
  - intros Hno. induction output as [| c output IH]; [reflexivity |].
    rewrite url_cons.
    destruct (match_url (c :: output)) as [x |] eqn:E.
    + exfalso. apply match_url_spec in E.
      exact (Hno [] (c :: output) x eq_refl E).
    + apply IH. intros before rest url -> Hat.
      exact (Hno (c :: before) rest url eq_refl Hat).
Qed.

(** X7: [parseWranglerOutput] returns the first URL of the output: the
    leftmost [http://] or [https://] followed by at least one code unit that
    is neither white space nor a double quote, taken up to the next white
    space, double quote or the end; it returns nothing exactly when the
    output has no such place. *)
Theorem parseWranglerOutput_contract :
  (forall output url : jsstring,
     parseWranglerOutput output = Some url <-> first_url output url) /\
  (forall output : jsstring,
     parseWranglerOutput output = None <-> no_url output) /\
  parseWranglerOutput (u "deployed to " ++ [DQUOTE] ++ u "https://example.com/x"
                       ++ [DQUOTE] ++ u " ok")
  = Some (u "https://example.com/x") /\
  parseWranglerOutput (u "see http:// and HTTPS://up.example") = None.
Proof.
  split; [exact url_some |]. split; [exact url_none |].
  split; reflexivity.
Qed.

Lemma parseWranglerOutput_contract_witness :
  first_url (u "at http://a.example/x, done") (u "http://a.example/x,").
Proof.
  destruct parseWranglerOutput_contract as [H _].
  apply (proj1 (H _ _)). reflexivity.
Defined.

(** X8: what the extractors return is never empty, so the truthiness tests
    [run] makes on a version id or a URL never discard a match; a version id
    holds only hexadecimal digits and hyphens, and a URL begins with [http]
    and holds no white space and no double quote. *)
Theorem extracted_values_well_formed (output : jsstring) :
  if_truthy (parseVersionIdFromUpload output) = parseVersionIdFromUpload output /\
  if_truthy (parseWranglerOutput output) = parseWranglerOutput output /\
  (forall id,
     parseVersionIdFromUpload output = Some id ->
     id <> [] /\ forallb is_hex_or_hyphen id = true) /\
  (forall url,
     parseWranglerOutput output = Some url ->
     (exists tail, url = u "http" ++ tail) /\
     forallb is_url_char url = true).
Proof.
  assert (Hid : forall id, parseVersionIdFromUpload output = Some id ->
                  id <> [] /\ forallb is_hex_or_hyphen id = true).
  { intros id H. apply parse_some in H.
    destruct H as [before [rest [_ [[ws [r [_ [_ [Hne [Hall _]]]]]] _]]]].
    split; assumption. }
  assert (Hurl : forall url, parseWranglerOutput output = Some url ->
                   (exists tail, url = u "http" ++ tail) /\
                   forallb is_url_char url = true).
  { intros url H. apply url_some in H.
    destruct H as [before [rest [_ [[scheme [body [r [Hs [_ [-> [_ [Hall _]]]]]]]] _]]]].
    destruct Hs as [-> | ->].
    - split; [eexists; reflexivity |].
      rewrite !forallb_app, Hall. reflexivity.
    - split; [exists (115 :: u "://" ++ body); reflexivity |].
      rewrite !forallb_app, Hall. reflexivity. }
  split; [| split; [| split; assumption]].
  - destruct (parseVersionIdFromUpload output) as [id |] eqn:E; [| reflexivity].
    destruct (Hid id eq_refl) as [Hne _]. destruct id; [congruence | reflexivity].
  - destruct (parseWranglerOutput output) as [url |] eqn:E; [| reflexivity].
    destruct (Hurl url eq_refl) as [[tail ->] _]. reflexivity.
Qed.

Lemma extracted_values_well_formed_witness :
  forallb is_hex_or_hyphen (u "abc123-def") = true.
Proof.
  destruct (extracted_values_well_formed
              (u "... Worker Version ID: abc123-def ..."))
    as [_ [_ [H _]]].
  apply (H (u "abc123-def")). reflexivity.
Defined.

End ExtractorExtras.

(** ** More on the metadata collectors *)

Section MetadataExtras.
Import MetadataSpec RunSpec Samples MoreSamples.

Lemma trimStart_stops (s : jsstring) :
  match trimStart s with [] => True | c :: _ => is_space c = false end.
Proof.
  destruct (trimStart s) as [| c r] eqn:E; [exact I |].
  exact (trimStart_head s r c E).
Qed.

Lemma trimStart_suffix (s : jsstring) :
  exists ws, s = ws ++ trimStart s /\ forallb is_space ws = true.
Proof.
  induction s as [| c s [ws [IH1 IH2]]]; simpl.
  - exists []. split; reflexivity.
  - destruct (is_space c) eqn:Hc.
    + exists (c :: ws). simpl. rewrite Hc, IH2. split; [f_equal; exact IH1 |
                                                          reflexivity].
    + exists []. split; reflexivity.
Qed.

(** [trim] keeps a middle part that neither begins nor ends with white
    space. *)
Lemma trim_ends (s : jsstring) :
  (forall c r, trim s = c :: r -> is_space c = false) /\
  (forall r c, trim s = r ++ [c] -> is_space c = false).
Proof.
  unfold trim, trimEnd.
  pose proof (trimStart_stops s) as Hy.
  set (y := trimStart s) in *.
  pose proof (trimStart_stops (rev y)) as Hz.
  destruct (trimStart_suffix (rev y)) as [ws [Hrev Hws]].
  set (z := trimStart (rev y)) in *.
  split.
  - intros c r E.
    assert (Hyz : y = rev z ++ rev ws).
    { rewrite <- (rev_involutive y), Hrev, rev_app_distr. reflexivity. }
    rewrite E in Hyz. simpl in Hyz. rewrite Hyz in Hy. exact Hy.
  - intros r c E.
    assert (Hzc : z = c :: rev r).
    { rewrite <- (rev_involutive z), E, rev_app_distr. reflexivity. }
    rewrite Hzc in Hz. exact Hz.
Qed.

Lemma nonempty_last (s : jsstring) : s <> [] -> exists r c, s = r ++ [c].
Proof.
  intros H. destruct (exists_last H) as [r [c E]]. exists r, c. exact E.
Qed.

(** X11: a collected commit message is never empty and neither begins nor
    ends with white space; its short form is its first line: a non-empty
    prefix that holds no line feed and is followed by a line feed or by the
    end of the message. *)
Theorem commit_message_shape (w : World) (t : list Event)
    (md : DeployMetadata) (m : jsstring) :
  collectMetadata w = (t, inl md) ->
  commit_message md = Some m ->
  (exists c r, m = c :: r /\ is_space c = false) /\
  (exists r c, m = r ++ [c] /\ is_space c = false) /\
  exists s tail,
    short_commit_message md = Some s /\
    m = s ++ tail /\
    s <> [] /\
    ~ In LF s /\
    (tail = [] \/ exists rest, tail = LF :: rest).
Proof.
  intros Hrun Hm.
  destruct (collectMetadata_fields w) as [md' [Hmd [_ [Hc Hs]]]].
  rewrite Hrun in Hmd. injection Hmd as _ <-.
  rewrite Hm in Hc. symmetry in Hc.
  assert (Htrim : exists out, m = trim out /\ m <> []).
  { unfold last_commit_message in Hc.
    destruct (outcome (git_result w)); [| discriminate].
    exists (stdout_text (chunks (git_result w))).
    destruct (trim _) as [| c r]; [discriminate |].
    inversion Hc. split; [reflexivity | discriminate]. }
  destruct Htrim as [out [Hout Hne]].
  destruct (trim_ends out) as [Hhead Hlast]. rewrite <- Hout in Hhead, Hlast.
  destruct m as [| c r]; [congruence |].
  pose proof (Hhead c r eq_refl) as Hc0.
  split; [exists c, r; split; [reflexivity | exact Hc0] |].
  split.
  { destruct (nonempty_last (c :: r) Hne) as [r' [c' E]].
    exists r', c'. split; [exact E | exact (Hlast r' c' E)]. }
  rewrite Hc in Hs. cbn [if_truthy] in Hs.
  destruct (before_after_first LF (c :: r)) as [Hsplit [Hno _]].
  exists (before_first LF (c :: r)),
         (match after_first LF (c :: r) with
          | Some rest => LF :: rest
          | None => []
          end).
  split; [exact Hs |]. split; [exact Hsplit |].
  split; [| split; [exact Hno |]].
  - simpl. destruct (N.eqb_spec c LF) as [-> | _]; [discriminate Hc0 |].
    discriminate.
  - destruct (after_first LF (c :: r)) as [rest |];
      [right; exists rest; reflexivity | left; reflexivity].
Qed.

Lemma commit_message_shape_witness :
  exists s tail,
    Some (u "fix bug") = Some s /\ u "fix bug" ++ [LF; LF] ++ u "why" = s ++ tail.
Proof.
  destruct (commit_message_shape
              (sample_world full_inputs github_env
                 (prints (u " fix bug" ++ [LF; LF] ++ u "why" ++ [LF]) 0)
                 (prints [] 0) (prints [] 0))
              _ _ (u "fix bug" ++ [LF; LF] ++ u "why")
              ltac:(vm_compute; reflexivity) eq_refl)
    as [_ [_ [s [tail [Hs [Hm _]]]]]].
  exists s, tail. split; assumption.
Defined.

Lemma collectMetadata_env_fields (w : World) :
  exists md,
    collectMetadata w
    = ([Exec (u "git") [u "log"; u "-1"; u "--pretty=%B"] git_options],
       inl md) /\
    ref md = env w (u "GITHUB_REF") /\
    sha md = env w (u "GITHUB_SHA") /\
    actor md = env w (u "GITHUB_ACTOR") /\
    run_id md = env w (u "GITHUB_RUN_ID") /\
    run_number md = env w (u "GITHUB_RUN_NUMBER") /\
    short_sha md = take 7 <$> if_truthy (env w (u "GITHUB_SHA")) /\
    branch md
    = match if_truthy (env w (u "GITHUB_REF")) with
      | Some r => if startsWith (u "refs/heads/") r
                  then Some (drop (length (u "refs/heads/")) r)
                  else None
      | None => None
      end.
Proof.
  unfold collectMetadata. rewrite getLastCommitMessage_eq.
  destruct (if_truthy (env w (u "GITHUB_REPOSITORY")));
    (eexists; split; [reflexivity |]);
    cbn [ref sha actor run_id run_number short_sha branch];
    repeat split; destruct (if_truthy (env w (u "GITHUB_SHA"))); reflexivity.
Qed.

Lemma collectDeployMetadata_env_fields (w : World) :
  exists t md,
    MetadataTs.collectDeployMetadata w = (t, inl md) /\
    ref md = env w (u "GITHUB_REF") /\
    sha md = env w (u "GITHUB_SHA") /\
    actor md = env w (u "GITHUB_ACTOR") /\
    run_id md = env w (u "GITHUB_RUN_ID") /\
    run_number md = env w (u "GITHUB_RUN_NUMBER") /\
    short_sha md = take 7 <$> if_truthy (env w (u "GITHUB_SHA")) /\
    branch md
    = match if_truthy (env w (u "GITHUB_REF")) with
      | Some r => if startsWith (u "refs/heads/") r
                  then Some (replace_first (u "refs/heads/") [] r)
                  else None
      | None => None
      end.
Proof.
  unfold MetadataTs.collectDeployMetadata.
  pose proof (MetadataTs_getLastCommitMessage_value w) as Hv.
  destruct (MetadataTs.getLastCommitMessage w) as [t0 r]. simpl in Hv.
  subst r. unfold MetadataTs.debugMetadata, debug, emit.
  destruct (if_truthy (env w (u "GITHUB_REPOSITORY")));
    (eexists _, _; split; [reflexivity |]);
    cbn [ref sha actor run_id run_number short_sha branch];
    repeat split; destruct (if_truthy (env w (u "GITHUB_SHA"))); reflexivity.
Qed.

(** Removing a prefix by [replace] and by [substring] is the same. *)
Lemma replace_first_prefix (p r : jsstring) :
  startsWith p r = true -> replace_first p [] r = drop (length p) r.
Proof.
  unfold startsWith. destruct (strip_prefix p r) as [rest |] eqn:E;
    [| discriminate].
  intros _. pose proof E as E'. apply strip_prefix_spec in E'. subst r.
  rewrite drop_app_length.
  destruct (p ++ rest) as [| c r'] eqn:Er.
  - apply app_eq_nil in Er as [-> ->]. reflexivity.
  - simpl. rewrite E. reflexivity.
Qed.

(** X9: the fields read from the environment: the ref, the sha, the actor
    and the run ids are taken as they are; the short sha is the first seven
    code units of a non-empty sha; the branch is what follows [refs/heads/]
    in the ref, and is absent for any other ref. *)
Theorem collectMetadata_environment (w : World) :
  exists md,
    collectMetadata w
    = ([Exec (u "git") [u "log"; u "-1"; u "--pretty=%B"] git_options],
       inl md) /\
    ref md = env w (u "GITHUB_REF") /\
    sha md = env w (u "GITHUB_SHA") /\
    actor md = env w (u "GITHUB_ACTOR") /\
    run_id md = env w (u "GITHUB_RUN_ID") /\
    run_number md = env w (u "GITHUB_RUN_NUMBER") /\
    short_sha md = take 7 <$> if_truthy (env w (u "GITHUB_SHA")) /\
    (forall s, short_sha md = Some s -> (0 < length s <= 7)%nat) /\
    (forall b, branch md = Some b <->
               env w (u "GITHUB_REF") = Some (u "refs/heads/" ++ b)).
Proof.
  destruct (collectMetadata_env_fields w)
    as [md [Hmd [Hr [Hs [Ha [Hi [Hn [Hss Hb]]]]]]]].
  exists md. repeat (split; [assumption |]). split.
  - intros s Hsome. rewrite Hss in Hsome.
    destruct (if_truthy (env w (u "GITHUB_SHA"))) as [full |] eqn:E;
      [| discriminate].
    apply if_truthy_some in E as [_ Hne]. simpl in Hsome.
    inversion Hsome. rewrite length_take.
    destruct full; [congruence | cbn [length]; lia].
  - intros b. rewrite Hb. split.
    + destruct (if_truthy (env w (u "GITHUB_REF"))) as [r |] eqn:E;
        [| discriminate].
      apply if_truthy_some in E as [E _]. unfold startsWith.
      destruct (strip_prefix (u "refs/heads/") r) as [rest |] eqn:Ep;
        [| discriminate].
      apply strip_prefix_spec in Ep. subst r. rewrite drop_app_length.
      intros H. inversion H; subst. exact E.
    + intros E. rewrite E.
      change (if_truthy (Some (u "refs/heads/" ++ b)))
        with (Some (u "refs/heads/" ++ b)).
      unfold startsWith. rewrite strip_prefix_app, drop_app_length.
      reflexivity.
Qed.

(** The trace of the collector of [src/metadata.ts]: the lookup, a debug
    line when the lookup is rejected, and the debug record. *)
Lemma collectDeployMetadata_trace (w : World) :
  exists record,
    fst (MetadataTs.collectDeployMetadata w)
    = Exec (u "git") [u "log"; u "-1"; u "--pretty=%B"] git_options
      :: match outcome (git_result w) with
         | Rejected message =>
             [LogDebug (u "Unable to read commit message via git log -1 --pretty=%B: "
                        ++ message)]
         | Exited _ => []
         end
      ++ [LogDebug record].
Proof.
  unfold MetadataTs.collectDeployMetadata, MetadataTs.getLastCommitMessage,
    MetadataTs.debugMetadata, git_result, exec, try_catch, debug, emit,
    mbind, act_bind, mret, act_ret.
  rewrite silent_listener.
  destruct (outcome _);
    destruct (if_truthy (env w (u "GITHUB_REPOSITORY")));
    eexists; reflexivity.
Qed.

(** X10: the two collectors agree on every field but the short commit
    message, which [src/metadata.ts] trims; the collector of
    [src/metadata.ts] only invokes git and writes debug lines. *)
Theorem collectors_agree (w : World) :
  exists md t' md',
    collectMetadata w
    = ([Exec (u "git") [u "log"; u "-1"; u "--pretty=%B"] git_options],
       inl md) /\
    MetadataTs.collectDeployMetadata w = (t', inl md') /\
    owner md' = owner md /\
    repo md' = repo md /\
    ref md' = ref md /\
    branch md' = branch md /\
    sha md' = sha md /\
    short_sha md' = short_sha md /\
    actor md' = actor md /\
    run_id md' = run_id md /\
    run_number md' = run_number md /\
    commit_message md' = commit_message md /\
    short_commit_message md' = trim <$> short_commit_message md /\
    Forall (fun e => match e with
                     | Exec c a o => (c, a, o) = git_call
                     | LogDebug _ => True
                     | _ => False
                     end) t'.
Proof.
  destruct (collectMetadata_fields w) as [md [Hmd [Hor [Hc Hs]]]].
  destruct (collectDeployMetadata_fields w)
    as [t' [md' [Hmd' [Hor' [Hc' Hs']]]]].
  destruct (collectMetadata_env_fields w)
    as [md1 [Hmd1 [Hr [Hsha [Ha [Hi [Hn [Hss Hb]]]]]]]].
  destruct (collectDeployMetadata_env_fields w)
    as [t2 [md2 [Hmd2 [Hr' [Hsha' [Ha' [Hi' [Hn' [Hss' Hb']]]]]]]]].
  rewrite Hmd in Hmd1. injection Hmd1 as <-.
  rewrite Hmd' in Hmd2. injection Hmd2 as <- <-.
  exists md, t', md'. split; [exact Hmd |]. split; [exact Hmd' |].
  rewrite <- Hor in Hor'. injection Hor' as Ho Hrp.
  repeat (split; [congruence |]).
  split.
  { rewrite Hb, Hb'.
    destruct (if_truthy (env w (u "GITHUB_REF"))) as [r |]; [| reflexivity].
    destruct (startsWith (u "refs/heads/") r) eqn:E; [| reflexivity].
    rewrite (replace_first_prefix _ _ E). reflexivity. }
  repeat (split; [congruence |]).
  split.
  { rewrite Hs, Hs'. destruct (if_truthy (last_commit_message w)); reflexivity. }
  destruct (collectDeployMetadata_trace w) as [record Ht].
  rewrite Hmd' in Ht. cbn [fst] in Ht. rewrite Ht.
  constructor; [reflexivity |]. apply Forall_app. split.
  - destruct (outcome (git_result w)); repeat constructor.
  - repeat constructor.
Qed.

(** X12: for collected metadata the default message shows the seven code
    units of the short sha: the fallback to the first six of the sha is
    never taken, a short sha being collected whenever a sha is. *)
Theorem default_message_of_collected_metadata (w : World) (t : list Event)
    (md : DeployMetadata) :
  collectMetadata w = (t, inl md) ->
  let b := js_or (branch md) [] in
  let s := match if_truthy (env w (u "GITHUB_SHA")) with
           | Some full => take 7 full
           | None => []
           end in
  let msg := js_or (short_commit_message md) (js_or (commit_message md) []) in
  buildDefaultMessage md
  = take 100 (match b, s with
              | _ :: _, _ :: _ => b ++ u "@" ++ s ++ u ": " ++ msg
              | _ :: _, [] => b ++ u ": " ++ msg
              | [], _ :: _ => s ++ u ": " ++ msg
              | [], [] => msg
              end).
Proof.
  intros Hrun. cbv zeta.
  destruct (collectMetadata_env_fields w)
    as [md1 [Hmd1 [_ [Hsha [_ [_ [_ [Hss _]]]]]]]].
  rewrite Hrun in Hmd1. injection Hmd1 as _ <-.
  assert (Hshort : js_or (short_sha md)
                     (match if_truthy (sha md) with
                      | Some full => take 6 full
                      | None => []
                      end)
                   = match if_truthy (env w (u "GITHUB_SHA")) with
                     | Some full => take 7 full
                     | None => []
                     end).
  { rewrite Hss, Hsha.
    destruct (env w (u "GITHUB_SHA")) as [[| c full] |]; reflexivity. }
  unfold buildDefaultMessage. rewrite Hshort.
  destruct (js_or (branch md) []) as [| b0 b];
    destruct (match if_truthy (env w (u "GITHUB_SHA")) with
              | Some full => take 7 full
              | None => []
              end) as [| s0 s]; simpl;
    rewrite ?app_nil_r; try reflexivity.
  f_equal. f_equal. rewrite <- !app_assoc. reflexivity.
Qed.

Lemma default_message_of_collected_metadata_witness :
  exists md,
    collectMetadata world_success
    = ([Exec (u "git") [u "log"; u "-1"; u "--pretty=%B"] git_options],
       inl md) /\
    buildDefaultMessage md = u "main@a1b2c3d: fix bug".
Proof.
  destruct (collectMetadata_env_fields world_success) as [md [Hmd _]].
  exists md. split; [exact Hmd |].
  rewrite (default_message_of_collected_metadata world_success _ md Hmd).
  vm_compute in Hmd. injection Hmd as <-. vm_compute. reflexivity.
Defined.

(** X13: the debug form of a value: it is the value when that has at most
    [max] code units; otherwise its first [max] code units followed by the
    three code units of the mark; so it never has more than [max + 3] code
    units and always begins as the value does. *)
Theorem truncateForDebug_bound (value : jsstring) (max : nat) :
  (length (MetadataTs.truncateForDebug value max) <= max + 3)%nat /\
  take max (MetadataTs.truncateForDebug value max) = take max value /\
  ((length value <= max)%nat ->
     MetadataTs.truncateForDebug value max = value) /\
  ((max < length value)%nat ->
     MetadataTs.truncateForDebug value max
     = take max value ++ [226; 8364; 166] /\
     length (MetadataTs.truncateForDebug value max) = (max + 3)%nat).
Proof.
  unfold MetadataTs.truncateForDebug, MetadataTs.TRUNCATION_MARK.
  destruct (Nat.leb_spec (length value) max) as [Hle | Hgt].
  - split; [lia |]. split; [reflexivity |]. split; [reflexivity | lia].
  - rewrite length_app, length_take. cbn [length].
    split; [lia |]. split; [| split; [lia |]].
    + rewrite take_app_le by (rewrite length_take; lia).
      rewrite take_take. f_equal. lia.
    + intros _. split; [reflexivity | lia].
Qed.

End MetadataExtras.

(** ** A failed lookup of the commit message *)

Section LookupFailure.
Import Trace RunSpec RunValues Samples MoreSamples.

(** X14: when the version-control lookup is rejected, whatever it printed is
    dropped: both collectors still return metadata, with the commit message
    and its short form absent; [src/metadata.ts] notes the error at debug
    level; and a run with valid inputs goes on to the upload invocation. *)
Theorem metadata_lookup_failure_recovered (w : World) (message : jsstring) :
  outcome (git_result w) = Rejected message ->
  (exists md,
     collectMetadata w
     = ([Exec (u "git") [u "log"; u "-1"; u "--pretty=%B"] git_options],
        inl md) /\
     commit_message md = None /\
     short_commit_message md = None /\
     (inputs_ok w = true ->
      exists rest,
        execs (fst (run w)) = git_call :: upload_call w md :: rest)) /\
  (exists t' md',
     MetadataTs.collectDeployMetadata w = (t', inl md') /\
     commit_message md' = None /\
     short_commit_message md' = None /\
     In (LogDebug (u "Unable to read commit message via git log -1 --pretty=%B: "
                   ++ message)) t').
Proof.
  intros Hrej.
  assert (Hnone : last_commit_message w = None).
  { unfold last_commit_message. rewrite Hrej. reflexivity. }
  split.
  - destruct (collectMetadata_fields w) as [md [Hmd [_ [Hc Hs]]]].
    exists md. rewrite Hc, Hs, Hnone.
    split; [exact Hmd |]. split; [reflexivity |]. split; [reflexivity |].
    intros Hok. destruct (run_observed w Hok) as [md' [R [Hmd' [HR Hobs]]]].
    assert (Esame : md' = md) by congruence. subst md'.
    rewrite HR. cbn [fst].
    assert (Hcalls : execs R = fst (fst (observed w md)))
      by (rewrite <- Hobs; reflexivity).
    rewrite Hcalls, observed_calls. eexists. reflexivity.
  - destruct (collectDeployMetadata_fields w)
      as [t' [md' [Hmd' [_ [Hc Hs]]]]].
    exists t', md'. rewrite Hc, Hs, Hnone.
    split; [exact Hmd' |]. split; [reflexivity |]. split; [reflexivity |].
    destruct (collectDeployMetadata_trace w) as [record Ht].
    rewrite Hmd', Hrej in Ht. cbn [fst] in Ht. rewrite Ht.
    right. left. reflexivity.
Qed.

Lemma metadata_lookup_failure_recovered_witness :
  exists md rest,
    commit_message md = None /\
    upload_args world_no_git md
    = [u "versions"; u "upload"; u "--config"; u "wrangler.toml";
       u "--env"; u "production"; u "--message=a1b2c3d: "] /\
    execs (fst (run world_no_git))
    = git_call :: upload_call world_no_git md :: rest.
Proof.
  destruct (metadata_lookup_failure_recovered world_no_git (u "git: not found")
              eq_refl) as [[md [Hmd [Hc [_ Hrun]]]] _].
  destruct (Hrun eq_refl) as [rest Hrest].
  exists md, rest. split; [exact Hc |]. split; [| exact Hrest].
  vm_compute in Hmd. injection Hmd as <-. vm_compute. reflexivity.
Defined.

Lemma run_input_validation_witness :
  run world_blank_token
  = ([SetFailed (u "Cloudflare API token (api_token) is required.")], inl tt).
Proof.
  destruct (run_input_validation world_blank_token) as [_ [_ [H _]]].
  apply H; [discriminate .. | reflexivity].
Defined.

End LookupFailure.
